(** * color-extractor: the extraction and rendering pipeline of [src/extract.ts]

    A shallow embedding of [extract.ts]: the regular expressions of the
    file run on a small backtracking matcher, the [Set<string>] of the
    walker is an insertion-ordered list, the asynchronous pipeline is a
    trace-and-exception monad.  The npm packages the file imports
    (postcss, color-string, unzipper, node-fetch) are parameters of the
    sections that use them. *)

From Stdlib Require Import List String Ascii Arith Bool Lia PeanoNat.
From Stdlib Require Import ZArith Zify ZifyNat.
Import ListNotations.

Local Open Scope string_scope.
Local Open Scope list_scope.

(** ** JavaScript strings *)

Module JSString.

(** The double quote and the line feed, which the template literals of
    [toSvgAsString] contain. *)
Definition dq : string := String (ascii_of_nat 34) EmptyString.
Definition nl : string := String (ascii_of_nat 10) EmptyString.

Definition code (c : ascii) : nat := nat_of_ascii c.

Definition between (lo hi c : ascii) : bool :=
  Nat.leb (code lo) (code c) && Nat.leb (code c) (code hi).

(** [toUpperCase] and [toLowerCase] on one ASCII character. *)
Definition to_upper (c : ascii) : ascii :=
  if between "a" "z" c then ascii_of_nat (code c - 32) else c.

Definition to_lower (c : ascii) : ascii :=
  if between "A" "Z" c then ascii_of_nat (code c + 32) else c.

(** [Number.prototype.toString] on a natural number below [1e21]: the
    decimal digits. *)
Definition digit_char (d : nat) : ascii := ascii_of_nat (48 + d).

Fixpoint digits (fuel n : nat) (acc : string) : string :=
  match fuel with
  | O => acc
  | S fuel' =>
      let acc' := String (digit_char (n mod 10)) acc in
      if Nat.eqb (n / 10) 0 then acc' else digits fuel' (n / 10) acc'
  end.

Definition of_nat (n : nat) : string := digits (S n) n EmptyString.

(** [s.slice(0, n)]. *)
Definition prefix (n : nat) (s : string) : string := substring 0 n s.

(** The number that a string of decimal digits denotes, read after the
    digits that gave [acc]; nothing on another character. *)
Fixpoint decimal_value (s : string) (acc : nat) : option nat :=
  match s with
  | EmptyString => Some acc
  | String c s' =>
      if between "0" "9" c
      then decimal_value s' (10 * acc + (code c - 48))
      else None
  end.

End JSString.

(** ** Regular expressions

    The fragment of ECMAScript regular expressions that [extract.ts]
    uses, with the backtracking semantics of the language: alternatives
    are tried left to right, quantifiers are greedy, and the first
    successful path is the match. *)

Module RegExp.
Import JSString.

(** A character class is a list of inclusive ranges. *)
Definition class := list (ascii * ascii).

Inductive regex : Type :=
| Chars (cl : class)          (* one character of the class *)
| Bol                         (* ^ without the m flag *)
| Eol                         (* $ without the m flag *)
| Seq (r1 r2 : regex)
| Alt (r1 r2 : regex)
| Opt (r : regex)             (* r? *)
| Star (cl : class).          (* c* on a one-character atom *)

Definition in_ranges (cl : class) (c : ascii) : bool :=
  existsb (fun r => between (fst r) (snd r) c) cl.

(** With the [i] flag a character matches the class when its
    canonical form is the canonical form of a member; on ASCII that
    is: it, its upper case or its lower case is a member. *)
Definition in_class (icase : bool) (cl : class) (c : ascii) : bool :=
  if icase
  then in_ranges cl c || in_ranges cl (to_upper c) || in_ranges cl (to_lower c)
  else in_ranges cl c.

(** A continuation receives the index reached and the input left, and
    answers with the end index of the whole match. *)
Definition cont := nat -> string -> option nat.

Fixpoint star (p : ascii -> bool) (i : nat) (s : string) (k : cont)
  : option nat :=
  match s with
  | String c s' =>
      if p c
      then match star p (S i) s' k with
           | Some e => Some e
           | None => k i s
           end
      else k i s
  | EmptyString => k i s
  end.

Fixpoint run (icase : bool) (r : regex) (i : nat) (s : string) (k : cont)
  : option nat :=
  match r with
  | Chars cl =>
      match s with
      | String c s' => if in_class icase cl c then k (S i) s' else None
      | EmptyString => None
      end
  | Bol => if Nat.eqb i 0 then k i s else None
  | Eol => match s with EmptyString => k i s | String _ _ => None end
  | Seq r1 r2 => run icase r1 i s (fun j t => run icase r2 j t k)
  | Alt r1 r2 =>
      match run icase r1 i s k with
      | Some e => Some e
      | None => run icase r2 i s k
      end
  | Opt r1 =>
      match run icase r1 i s k with
      | Some e => Some e
      | None => k i s
      end
  | Star cl => star (in_class icase cl) i s k
  end.

(** One attempt at index [i], where [s] is the input from [i] on. *)
Definition exec_at (icase : bool) (r : regex) (i : nat) (s : string)
  : option nat :=
  run icase r i s (fun j _ => Some j).

(** [String.prototype.match] with the [g] flag: the matches from left
    to right, each search starting where the last match ended (one
    further after an empty match).  [skip] counts the characters of
    the last match still to step over. *)
Fixpoint scan (icase : bool) (r : regex) (skip i : nat) (s : string)
  : list string :=
  match skip with
  | S n =>
      match s with
      | String _ s' => scan icase r n (S i) s'
      | EmptyString => []
      end
  | O =>
      match exec_at icase r i s with
      | Some e =>
          prefix (e - i) s ::
            match s with
            | String _ s' => scan icase r (e - i - 1) (S i) s'
            | EmptyString => []
            end
      | None =>
          match s with
          | String _ s' => scan icase r 0 (S i) s'
          | EmptyString => []
          end
      end
  end.

(** [null] when nothing matches, the array of matches otherwise. *)
Definition match_g (icase : bool) (r : regex) (s : string)
  : option (list string) :=
  match scan icase r 0 0 s with
  | [] => None
  | l => Some l
  end.

(** [RegExp.prototype.test] without the [g] flag. *)
Fixpoint search (icase : bool) (r : regex) (i : nat) (s : string) : bool :=
  match exec_at icase r i s with
  | Some _ => true
  | None =>
      match s with
      | String _ s' => search icase r (S i) s'
      | EmptyString => false
      end
  end.

Definition test (icase : bool) (r : regex) (s : string) : bool :=
  search icase r 0 s.

(** Building blocks. *)
Definition chr (c : ascii) : regex := Chars [(c, c)].

Fixpoint seqs (rs : list regex) (last : regex) : regex :=
  match rs with
  | [] => last
  | r :: rs' => Seq r (seqs rs' last)
  end.

Definition plus (cl : class) : regex := Seq (Chars cl) (Star cl).

End RegExp.

(** ** The patterns of [extract.ts] *)

Module Patterns.
Import JSString RegExp.

Definition digit : class := [("0", "9")]%char.
Definition hexdigit : class := [("0", "9"); ("A", "F"); ("a", "f")]%char.
Definition space : class := [(" ", " ")]%char.
Definition sign : class := [("+", "+"); ("-", "-")]%char.

(** [\.(css)($|\?)] *)
Definition cssLangReg : regex :=
  seqs [chr "."; chr "c"; chr "s"; chr "s"]%char (Alt Eol (chr "?")).

(** [^#{1}[0-9A-Fa-f]{3}([0-9A-Fa-f]{3})?$] *)
Definition hexReg : regex :=
  seqs [Bol; chr "#"; Chars hexdigit; Chars hexdigit; Chars hexdigit;
        Opt (seqs [Chars hexdigit; Chars hexdigit] (Chars hexdigit))]%char
       Eol.

(** [[+-]?\d*\.?\d+] *)
Definition number : regex :=
  seqs [Opt (Chars sign); Star digit; Opt (chr ".")]%char (plus digit).

(** A comma between optional spaces. *)
Definition comma : regex := seqs [Star space; chr ","]%char (Star space).

(** [rgba?] then an opening parenthesis, spaces, three numbers
    separated by commas, an optional group of a comma, a fourth number
    and spaces, a closing parenthesis, and [$].  Spaces are allowed
    around each comma and after the opening parenthesis. *)
Definition rgbReg : regex :=
  seqs [chr "r"; chr "g"; chr "b"; Opt (chr "a"); chr "("; Star space;
        number; comma; number; comma; number;
        Opt (seqs [comma; number] (Star space)); chr ")"]%char
       Eol.

(** The pattern of the walker, flags [gi]. *)
Definition colorReg : regex := Alt hexReg rgbReg.

Definition isCSSRequest (request : string) : bool :=
  test false cssLangReg request.

(** [value.match(/.../gi)] *)
Definition match_colors (value : string) : option (list string) :=
  match_g true colorReg value.

End Patterns.

Import JSString RegExp Patterns.

(** ** [Set<string>]

    A JavaScript [Set] iterates in insertion order, and adding a member
    again leaves it where it is: a list without repetition, new members
    at the end. *)

Module JSSet.

Definition t := list string.

Definition empty : t := [].

Definition has (x : string) (s : t) : bool :=
  existsb (String.eqb x) s.

Definition add (x : string) (s : t) : t :=
  if has x s then s else s ++ [x].

(** [for (const x of xs) s.add(x)] *)
Definition add_all (xs : list string) (s : t) : t :=
  fold_left (fun acc x => add x acc) xs s.

(** [Array.from(s)] *)
Definition to_array (s : t) : list string := s.

End JSSet.

(** ** The style tree

    Modelled from the spec: the [ChildNode] type of postcss, which
    [extract.ts] imports and does not declare.  The spec's StyleNode has
    rule nodes with children and declaration nodes with a value; the
    walker tests the [type] tag against ['rule'] and ['decl'] and has no
    branch for the other tags of the union, at-rules (which also have
    children) and comments. *)

#[warnings="-register-all"]
Inductive ChildNode : Type :=
| Rule (selector : string) (nodes : list ChildNode)
| AtRule (name params : string) (nodes : list ChildNode)
| Declaration (prop value : string)
| Comment (text : string).

Section ChildNode_induction.

Variable P : ChildNode -> Prop.
Hypothesis P_rule : forall sel ns, Forall P ns -> P (Rule sel ns).
Hypothesis P_atrule : forall name params ns, Forall P ns -> P (AtRule name params ns).
Hypothesis P_decl : forall prop value, P (Declaration prop value).
Hypothesis P_comment : forall text, P (Comment text).

Fixpoint ChildNode_nested_ind (n : ChildNode) : P n :=
  match n with
  | Rule sel ns =>
      P_rule sel ns
        ((fix all (l : list ChildNode) : Forall P l :=
            match l with
            | [] => Forall_nil P
            | x :: l' => Forall_cons x (ChildNode_nested_ind x) (all l')
            end) ns)
  | AtRule name params ns =>
      P_atrule name params ns
        ((fix all (l : list ChildNode) : Forall P l :=
            match l with
            | [] => Forall_nil P
            | x :: l' => Forall_cons x (ChildNode_nested_ind x) (all l')
            end) ns)
  | Declaration prop value => P_decl prop value
  | Comment text => P_comment text
  end.

End ChildNode_induction.

(** ** The walker *)

Module Walker.

Section Params.

(** The two entry points of the color-string package that the walker
    calls: [cs.get], which answers [null] on a token it cannot
    resolve, and [cs.to.hex] on the [value] of its result. *)
Variable Color : Type.
Variable cs_get : string -> option Color.
Variable cs_to_hex : Color -> string.

(** The inner loop over [matchedArr]. *)
Definition add_matched (matchedArr : list string) (hexColors : JSSet.t)
  : JSSet.t :=
  fold_left
    (fun acc matched =>
       match cs_get matched with
       | Some color => JSSet.add (cs_to_hex color) acc
       | None => acc
       end)
    matchedArr hexColors.

(** The [decl] branch. *)
Definition visit_decl (value : string) (hexColors : JSSet.t) : JSSet.t :=
  match match_colors value with
  | Some matchedArr =>
      if Nat.eqb (List.length matchedArr) 0 then hexColors
      else add_matched matchedArr hexColors
  | None => hexColors
  end.

(** One turn of the loop over [nodes]; the inner [fix] is the
    recursive call [recursion(node.nodes)], which starts from a fresh
    set. *)
Fixpoint visit (node : ChildNode) (hexColors : JSSet.t) : JSSet.t :=
  match node with
  | Rule _ nodes =>
      JSSet.add_all
        (JSSet.to_array
           ((fix loop (ns : list ChildNode) (acc : JSSet.t) : JSSet.t :=
               match ns with
               | [] => acc
               | n :: ns' => loop ns' (visit n acc)
               end) nodes JSSet.empty))
        hexColors
  | Declaration _ value => visit_decl value hexColors
  | AtRule _ _ _ => hexColors
  | Comment _ => hexColors
  end.

Definition recursion_from (nodes : list ChildNode) (hexColors : JSSet.t)
  : JSSet.t :=
  fold_left (fun acc n => visit n acc) nodes hexColors.

Definition recursion (nodes : list ChildNode) : JSSet.t :=
  recursion_from nodes JSSet.empty.

(** *** The colors of a tree in document order

    What the tree emits, repetitions included: the normalized matches
    of each declaration value, declarations taken depth first through
    rule nodes. *)

Definition value_colors (value : string) : list string :=
  match match_colors value with
  | Some matchedArr =>
      flat_map
        (fun matched =>
           match cs_get matched with
           | Some color => [cs_to_hex color]
           | None => []
           end)
        matchedArr
  | None => []
  end.

Fixpoint emitted (node : ChildNode) : list string :=
  match node with
  | Rule _ nodes => flat_map emitted nodes
  | Declaration _ value => value_colors value
  | AtRule _ _ _ => []
  | Comment _ => []
  end.

Definition emitted_all (nodes : list ChildNode) : list string :=
  flat_map emitted nodes.

End Params.

End Walker.

Import Walker.

(** ** The grid *)

Module Grid.

(** [a.slice(from, to)] for [0 <= from <= to]. *)
Definition slice {A : Type} (a : list A) (from to : nat) : list A :=
  firstn (to - from) (skipn from a).

(** [a.flatMap((x, i, a) => f(x, i, a))] *)
Definition flatMap {A B : Type} (f : A -> nat -> list A -> list B)
  (a : list A) : list B :=
  flat_map (fun p => f (snd p) (fst p) a) (combine (seq 0 (List.length a)) a).

(** [toTwoDimensional]; [size] is positive (its one caller passes 10). *)
Definition toTwoDimensional (arr : list string) (size : nat)
  : list (list string) :=
  flatMap
    (fun _ i a => if Nat.eqb (i mod size) 0 then [slice a i (i + size)] else [])
    arr.

End Grid.

(** ** The vector document *)

Module Svg.
Import JSString.

Local Open Scope string_scope.

(** [for (let i = from; i < from + n; i++) st = body(i, st)] *)
Fixpoint for_loop {St : Type} (n from : nat) (body : nat -> St -> St)
  (st : St) : St :=
  match n with
  | O => st
  | S n' => for_loop n' (S from) body (body from st)
  end.

Definition attr (name value : string) : string :=
  name ++ "=" ++ dq ++ value ++ dq.

(** The opening tag, with the line breaks of the template literal. *)
Definition open_tag (width height : nat) : string :=
  "<svg" ++ nl ++
  "  " ++ attr "width" (of_nat width) ++ nl ++
  "  " ++ attr "height" (of_nat height) ++ nl ++
  "  " ++ attr "viewBox" ("0 0 " ++ of_nat width ++ " " ++ of_nat height) ++ nl ++
  "  " ++ attr "fill" "none" ++ nl ++
  "  " ++ attr "xmlns" "http://www.w3.org/2000/svg" ++ nl ++
  ">".

Definition rect (x y : nat) (fill : string) : string :=
  "<rect " ++ attr "x" (of_nat x) ++ " " ++ attr "y" (of_nat y) ++ " " ++
  attr "width" "64" ++ " " ++ attr "height" "64" ++ " " ++
  attr "fill" fill ++ " />".

(** [a[i]] on an array of rows and [row[j]] on a row; out of range
    the template literal would print [undefined]. *)
Definition row_at (a : list (list string)) (i : nat) : list string :=
  nth i a [].

Definition cell_at (row : list string) (j : nat) : string :=
  nth j row "undefined".

Definition toSvgAsString (twoDimensionalHexColors : list (list string))
  : string :=
  let rows := List.length twoDimensionalHexColors in
  let svgAsString := open_tag (64 * 10) (64 * rows) in
  let svgAsString :=
    for_loop rows 0
      (fun i svgAsString =>
         for_loop (List.length (row_at twoDimensionalHexColors i)) 0
           (fun j svgAsString =>
              svgAsString ++
              rect (j * 64) (i * 64) (cell_at (row_at twoDimensionalHexColors i) j))
           svgAsString)
      svgAsString in
  svgAsString ++ "</svg>".

(** *** The document as the spec describes it

    A canvas and its tiles, and the text of such a document. *)
Record Tile : Type :=
  { tile_x : nat; tile_y : nat;
    tile_width : nat; tile_height : nat;
    tile_fill : string }.

Record SvgDocument : Type :=
  { doc_width : nat; doc_height : nat; doc_tiles : list Tile }.

(** The text of a tile, character by character: a [rect] element with
    its five attributes in double quotes, one space between them. *)
Definition tile_text (t : Tile) : string :=
  "<rect x=" ++ dq ++ of_nat (tile_x t) ++ dq
  ++ " y=" ++ dq ++ of_nat (tile_y t) ++ dq
  ++ " width=" ++ dq ++ of_nat (tile_width t) ++ dq
  ++ " height=" ++ dq ++ of_nat (tile_height t) ++ dq
  ++ " fill=" ++ dq ++ tile_fill t ++ dq ++ " />".

Definition join (l : list string) : string :=
  fold_right String.append EmptyString l.

(** The text of a document: the [svg] element with one attribute per
    line, two spaces before each, then the tiles, then the end tag. *)
Definition serialize (d : SvgDocument) : string :=
  "<svg" ++ nl
  ++ "  width=" ++ dq ++ of_nat (doc_width d) ++ dq ++ nl
  ++ "  height=" ++ dq ++ of_nat (doc_height d) ++ dq ++ nl
  ++ "  viewBox=" ++ dq ++ "0 0 " ++ of_nat (doc_width d) ++ " "
  ++ of_nat (doc_height d) ++ dq ++ nl
  ++ "  fill=" ++ dq ++ "none" ++ dq ++ nl
  ++ "  xmlns=" ++ dq ++ "http://www.w3.org/2000/svg" ++ dq ++ nl
  ++ ">" ++ join (map tile_text (doc_tiles d)) ++ "</svg>".

(** The tiles of a grid: the cell of row [i] and column [j] at
    [(j * 64, i * 64)], rows from [i] on and cells from [j] on. *)
Fixpoint row_tiles (i j : nat) (row : list string) : list Tile :=
  match row with
  | [] => []
  | color :: row' =>
      {| tile_x := j * 64; tile_y := i * 64;
         tile_width := 64; tile_height := 64; tile_fill := color |}
        :: row_tiles i (S j) row'
  end.

Fixpoint grid_tiles (i : nat) (rows : list (list string)) : list Tile :=
  match rows with
  | [] => []
  | row :: rows' => (row_tiles i 0 row ++ grid_tiles (S i) rows')%list
  end.

Definition grid_document (rows : list (list string)) : SvgDocument :=
  {| doc_width := 640;
     doc_height := 64 * List.length rows;
     doc_tiles := grid_tiles 0 rows |}.

(** The tile of the [k]-th color of the sequence: row [k / 10],
    column [k mod 10]. *)
Definition tile_of (k : nat) (color : string) : Tile :=
  {| tile_x := (k mod 10) * 64; tile_y := (k / 10) * 64;
     tile_width := 64; tile_height := 64; tile_fill := color |}.

Definition tiles_from (k : nat) (colors : list string) : list Tile :=
  map (fun p => tile_of (fst p) (snd p))
      (combine (seq k (List.length colors)) colors).

Definition document_of (colors : list string) : SvgDocument :=
  {| doc_width := 640;
     doc_height := 64 * ((List.length colors + 9) / 10);
     doc_tiles := tiles_from 0 colors |}.

(** The text of the document without tiles. *)
Definition empty_document_text : string :=
  "<svg" ++ nl ++
  "  width=" ++ dq ++ "640" ++ dq ++ nl ++
  "  height=" ++ dq ++ "0" ++ dq ++ nl ++
  "  viewBox=" ++ dq ++ "0 0 640 0" ++ dq ++ nl ++
  "  fill=" ++ dq ++ "none" ++ dq ++ nl ++
  "  xmlns=" ++ dq ++ "http://www.w3.org/2000/svg" ++ dq ++ nl ++
  "></svg>".

(** The text of the document of a row of two colors and a row of one,
    written out; the double quote is character 34 and the line feed
    character 10. *)
Definition three_tiles : list (list string) :=
  [["#ff0000"; "#000000"]; ["#abcdef"]].

Definition three_tiles_text : string :=
  let q := String "034"%char EmptyString in
  let lf := String "010"%char EmptyString in
  "<svg" ++ lf
  ++ "  width=" ++ q ++ "640" ++ q ++ lf
  ++ "  height=" ++ q ++ "128" ++ q ++ lf
  ++ "  viewBox=" ++ q ++ "0 0 640 128" ++ q ++ lf
  ++ "  fill=" ++ q ++ "none" ++ q ++ lf
  ++ "  xmlns=" ++ q ++ "http://www.w3.org/2000/svg" ++ q ++ lf
  ++ ">"
  ++ "<rect x=" ++ q ++ "0" ++ q ++ " y=" ++ q ++ "0" ++ q
  ++ " width=" ++ q ++ "64" ++ q ++ " height=" ++ q ++ "64" ++ q
  ++ " fill=" ++ q ++ "#ff0000" ++ q ++ " />"
  ++ "<rect x=" ++ q ++ "64" ++ q ++ " y=" ++ q ++ "0" ++ q
  ++ " width=" ++ q ++ "64" ++ q ++ " height=" ++ q ++ "64" ++ q
  ++ " fill=" ++ q ++ "#000000" ++ q ++ " />"
  ++ "<rect x=" ++ q ++ "0" ++ q ++ " y=" ++ q ++ "64" ++ q
  ++ " width=" ++ q ++ "64" ++ q ++ " height=" ++ q ++ "64" ++ q
  ++ " fill=" ++ q ++ "#abcdef" ++ q ++ " />"
  ++ "</svg>".

(** A loop over the members of a list with their indices. *)
Fixpoint fold_indexed {A St : Type} (f : nat -> A -> St -> St) (i : nat)
  (l : list A) (st : St) : St :=
  match l with
  | [] => st
  | x :: l' => fold_indexed f (S i) l' (f i x st)
  end.

End Svg.

(** ** The asynchronous pipeline

    An [async] function is a computation that may throw and that leaves
    a trace of the operations it awaited; [try]/[catch] is the handler
    of the exception. *)

Module Async.

(** A thrown value. *)
Definition exn := string.

Inductive Event : Type :=
| Fetch (url : string)        (* fetch and response.arrayBuffer() *)
| OpenBuffer                  (* unzipper.Open.buffer *)
| FileBuffer (path : string)  (* file.buffer() *)
| ConsoleLog (e : exn).

Definition M (A : Type) : Type := list Event -> (exn + A) * list Event.

Definition ret {A : Type} (a : A) : M A := fun tr => (inr a, tr).

Definition bind {A B : Type} (m : M A) (f : A -> M B) : M B :=
  fun tr =>
    match m tr with
    | (inl e, tr') => (inl e, tr')
    | (inr a, tr') => f a tr'
    end.

(** A synchronous call that may throw. *)
Definition lift {A : Type} (r : exn + A) : M A := fun tr => (r, tr).

(** [await] of an external operation: the operation is recorded, then
    its promise resolves or rejects. *)
Definition await {A : Type} (ev : Event) (r : exn + A) : M A :=
  fun tr => (r, tr ++ [ev]).

Definition try_catch {A : Type} (m : M A) (handle : exn -> M A) : M A :=
  fun tr =>
    match m tr with
    | (inl e, tr') => handle e tr'
    | (inr a, tr') => (inr a, tr')
    end.

Definition run {A : Type} (m : M A) : (exn + A) * list Event := m [].

End Async.

Notation "x <- m ;; k" := (Async.bind m (fun x => k))
  (at level 61, m at next level, right associativity).

Module Pipeline.
Import Async Grid Svg.

Local Open Scope string_scope.

Definition HEADERS : list (string * string) :=
  [("Access-Control-Allow-Headers",
    "Origin, X-Requested-With, Content-Type, Accept, Access-Control-Allow-Origin");
   ("Content-Type", "text/plain");
   ("Access-Control-Allow-Methods", "GET");
   ("Access-Control-Max-Age", "8640");
   ("Access-Control-Allow-Origin", "*");
   ("Vary", "Origin")].

Record Options : Type := { repo : string; owner : string; branch : string }.

(** [URLSearchParams]: the pairs of the query in order. *)
Definition SearchParams := list (string * string).

Definition has (q : SearchParams) (name : string) : bool :=
  existsb (fun p => String.eqb (fst p) name) q.

Definition get (q : SearchParams) (name : string) : option string :=
  option_map snd (find (fun p => String.eqb (fst p) name) q).

(** [x || ''] on the result of [get]. *)
Definition or_empty (v : option string) : string :=
  match v with Some x => x | None => EmptyString end.

(** An entry of the archive: its path, and what [file.buffer()]
    followed by [toString()] gives. *)
Record File : Type := { path : string; buffer : exn + string }.

(** The object the handler returns.  [headers_field] is the property
    that the source spells [HEADERS], the name of the constant above;
    it and [body] are absent from the two error objects. *)
Record Response : Type :=
  { statusCode : nat;
    body : option string;
    headers_field : option (list (string * string)) }.

Section World.

(** What the file takes from the platform and from its packages:
    [new URL(url).searchParams], which throws on a string that is
    not a URL; [fetch] with [arrayBuffer]; [unzipper.Open.buffer]
    with the [files] of its result; postcss [parse] with the [nodes]
    of its result; and the two color-string functions. *)
Variable new_URL : string -> exn + SearchParams.
Variable fetch : string -> exn + string.
Variable Open_buffer : string -> exn + list File.
Variable parse : string -> exn + list ChildNode.
Variable Color : Type.
Variable cs_get : string -> option Color.
Variable cs_to_hex : Color -> string.

Definition getSearchParams (url : string) : exn + option Options :=
  match new_URL url with
  | inl e => inl e
  | inr searchParams =>
      if negb (has searchParams "repo")
         || negb (has searchParams "owner")
         || negb (has searchParams "branch")
      then inr None
      else inr (Some {| repo := or_empty (get searchParams "repo");
                        owner := or_empty (get searchParams "owner");
                        branch := or_empty (get searchParams "branch") |})
  end.

Definition archive_url (options : Options) : string :=
  "https://api.github.com/repos/" ++ owner options ++ "/" ++ repo options
  ++ "/zipball/" ++ branch options.

(** The loop of [main] over [directoryFromBuffer.files]. *)
Fixpoint collect (files : list File) (hexColors : JSSet.t) : M JSSet.t :=
  match files with
  | [] => ret hexColors
  | file :: files' =>
      if isCSSRequest (path file)
      then
        fileBuffer <- await (FileBuffer (path file)) (buffer file) ;;
        nodes <- lift (parse fileBuffer) ;;
        collect files'
          (JSSet.add_all
             (JSSet.to_array (recursion Color cs_get cs_to_hex nodes))
             hexColors)
      else collect files' hexColors
  end.

Definition main (options : Options) : M string :=
  arrayBuffer <- await (Fetch (archive_url options))
                       (fetch (archive_url options)) ;;
  files <- await OpenBuffer (Open_buffer arrayBuffer) ;;
  hexColors <- collect files JSSet.empty ;;
  ret (toSvgAsString (toTwoDimensional (JSSet.to_array hexColors) 10)).

Definition handler (rawUrl : string) : M Response :=
  options <- lift (getSearchParams rawUrl) ;;
  match options with
  | None =>
      ret {| statusCode := 400; body := None; headers_field := None |}
  | Some options =>
      try_catch
        (svgAsString <- main options ;;
         ret {| statusCode := 200;
                body := Some svgAsString;
                headers_field := Some HEADERS |})
        (fun e =>
           _ <- await (ConsoleLog e) (inr tt) ;;
           ret {| statusCode := 500; body := None; headers_field := None |})
  end.

(** The text of a stylesheet entry after it was read and parsed, when
    both succeed. *)
Definition nodes_of (file : File) : option (list ChildNode) :=
  match buffer file with
  | inr text =>
      match parse text with
      | inr nodes => Some nodes
      | inl _ => None
      end
  | inl _ => None
  end.

(** What the archive emits: the colors of its stylesheets, in the
    order of the entries and, within one, in document order. *)
Definition emitted_file (file : File) : list string :=
  if isCSSRequest (path file)
  then match nodes_of file with
       | Some nodes => emitted_all Color cs_get cs_to_hex nodes
       | None => []
       end
  else [].

Definition readable (file : File) : bool :=
  if isCSSRequest (path file)
  then match nodes_of file with Some _ => true | None => false end
  else true.

Definition emitted_archive (files : list File) : list string :=
  flat_map emitted_file files.

End World.

(** The reads of [collect] on an archive all of whose stylesheets
    are readable. *)
Definition reads (files : list File) : list Event :=
  map (fun f => FileBuffer (path f))
      (filter (fun f => isCSSRequest (path f)) files).

Definition bad_request : Response :=
  {| statusCode := 400; body := None; headers_field := None |}.

Definition server_error : Response :=
  {| statusCode := 500; body := None; headers_field := None |}.

End Pipeline.

(** ** A small world

    One repository with two branches: [main], whose archive holds two
    stylesheets and a text file, and [broken], whose second stylesheet
    does not parse. *)

Module Fixture.
Import Async Pipeline.

Local Open Scope string_scope.

Definition url_all : string :=
  "https://example.test/?repo=r&owner=o&branch=main".
Definition url_broken : string :=
  "https://example.test/?repo=r&owner=o&branch=broken".
Definition url_no_branch : string :=
  "https://example.test/?repo=r&owner=o".

Definition new_URL (url : string) : exn + SearchParams :=
  if String.eqb url url_all
  then inr [("repo", "r"); ("owner", "o"); ("branch", "main")]
  else if String.eqb url url_broken
  then inr [("repo", "r"); ("owner", "o"); ("branch", "broken")]
  else if String.eqb url url_no_branch
  then inr [("repo", "r"); ("owner", "o")]
  else inl "TypeError: Invalid URL".

Definition fetch (url : string) : exn + string :=
  if String.eqb url "https://api.github.com/repos/o/r/zipball/main"
  then inr "zip:main"
  else if String.eqb url "https://api.github.com/repos/o/r/zipball/broken"
  then inr "zip:broken"
  else inl "FetchError".

Definition a_css : File :=
  {| path := "r-main/a.css";
     buffer := inr "a{color:#fff;background:rgb(0,0,0);border-color:#fff}" |}.
Definition readme : File :=
  {| path := "r-main/README.md"; buffer := inr "colors: #123456" |}.
Definition b_css : File :=
  {| path := "r-main/b.css";
     buffer := inr "b{color:#000000}b c{color:#ABCDEF}" |}.
Definition bad_css : File :=
  {| path := "r-main/bad.css"; buffer := inr "a{" |}.

Definition Open_buffer (bytes : string) : exn + list File :=
  if String.eqb bytes "zip:main" then inr [a_css; readme; b_css]
  else if String.eqb bytes "zip:broken" then inr [a_css; bad_css]
  else inl "ArchiveFormatError".

Definition a_nodes : list ChildNode :=
  [Rule "a" [Declaration "color" "#fff";
             Declaration "background" "rgb(0,0,0)";
             Declaration "border-color" "#fff"]].

Definition b_nodes : list ChildNode :=
  [Rule "b" [Declaration "color" "#000000"];
   Rule "b c" [Declaration "color" "#ABCDEF"]].

Definition parse (text : string) : exn + list ChildNode :=
  if String.eqb text "a{color:#fff;background:rgb(0,0,0);border-color:#fff}"
  then inr a_nodes
  else if String.eqb text "b{color:#000000}b c{color:#ABCDEF}"
  then inr b_nodes
  else inl "CssSyntaxError".

Definition options_main : Options :=
  {| repo := "r"; owner := "o"; branch := "main" |}.

Definition options_broken : Options :=
  {| repo := "r"; owner := "o"; branch := "broken" |}.

(** A rule in a rule, and a declaration in it. *)
Definition nested : list ChildNode :=
  [Rule "a" [Rule "b" [Declaration "color" "#ff0000"]]].

(** Twelve colors: a full row and a row of two. *)
Definition twelve : list string :=
  ["#000000"; "#111111"; "#222222"; "#333333"; "#444444"; "#555555";
   "#666666"; "#777777"; "#888888"; "#999999"; "#aaaaaa"; "#bbbbbb"].

End Fixture.

(** ** First-seen order

    The sequence that keeps the first occurrence of each member and
    drops the later ones. *)

Fixpoint first_seen (l : list string) : list string :=
  match l with
  | [] => []
  | x :: l' => x :: filter (fun y => negb (String.eqb x y)) (first_seen l')
  end.

(** ** The Normalizer

    The color-string package is not part of [extract.ts]; the walker
    above takes its two functions as parameters.  This module is the
    Normalizer of the spec, section 4.1, but for the alpha, which the
    spec says is ignored and the package keeps (see [to_hex]). *)

Module ColorString.
Import JSString.

Local Open Scope string_scope.

(** Modelled from the spec: the value that [cs.get] resolves a token
    to, three channels in 0..255 and the alpha lexeme when the token
    has a fourth channel. *)
Record Color : Type :=
  { red : nat; green : nat; blue : nat; alpha : option string }.

Definition hex_value (c : ascii) : option nat :=
  if between "0" "9" c then Some (code c - 48)
  else if between "a" "f" c then Some (code c - 87)
  else if between "A" "F" c then Some (code c - 55)
  else None.

Definition channel (hi lo : ascii) : option nat :=
  match hex_value hi, hex_value lo with
  | Some h, Some l => Some (16 * h + l)
  | _, _ => None
  end.

Definition rgb (r g b : option nat) (a : option string) : option Color :=
  match r, g, b with
  | Some r, Some g, Some b =>
      Some {| red := r; green := g; blue := b; alpha := a |}
  | _, _, _ => None
  end.

(** Modelled from the spec: a [#] followed by 3 or 6 hex digits; a
    digit of the short form stands for itself twice. *)
Definition get_hex (token : string) : option Color :=
  match token with
  | String h digits =>
      if Ascii.eqb h "#"
      then match digits with
           | String a (String b (String c EmptyString)) =>
               rgb (channel a a) (channel b b) (channel c c) None
           | String a (String b (String c
               (String d (String e (String f EmptyString))))) =>
               rgb (channel a b) (channel c d) (channel e f) None
           | _ => None
           end
      else None
  | EmptyString => None
  end.

(** [s] without the prefix [p], letters compared without case. *)
Fixpoint strip_prefix (p s : string) : option string :=
  match p, s with
  | EmptyString, _ => Some s
  | String a p', String b s' =>
      if Ascii.eqb a (to_lower b) then strip_prefix p' s' else None
  | String _ _, EmptyString => None
  end.

(** The fields between the separators, the last one up to [close],
    which has to end the string. *)
Fixpoint fields (sep close : ascii) (s : string) (cur : string)
  : option (list string) :=
  match s with
  | EmptyString => None
  | String c s' =>
      if Ascii.eqb c close
      then match s' with
           | EmptyString => Some [cur]
           | String _ _ => None
           end
      else if Ascii.eqb c sep
      then option_map (cons cur) (fields sep close s' EmptyString)
      else fields sep close s' (cur ++ String c EmptyString)
  end.

Fixpoint trim_left (s : string) : string :=
  match s with
  | String " " s' => trim_left s'
  | _ => s
  end.

Fixpoint trim_right (s : string) : string :=
  match s with
  | EmptyString => EmptyString
  | String c s' =>
      match trim_right s' with
      | EmptyString => if Ascii.eqb c " " then EmptyString else String c EmptyString
      | t => String c t
      end
  end.

Definition trim (s : string) : string := trim_right (trim_left s).

(** The value of a string of decimal digits, kept below 256 once it
    has passed 255. *)
Fixpoint decimal (s : string) (acc : nat) : option nat :=
  match s with
  | EmptyString => Some acc
  | String c s' =>
      if between "0" "9" c
      then decimal s' (Nat.min 256 (10 * acc + (code c - 48)))
      else None
  end.

(** Modelled from the spec: a channel is an optionally signed decimal
    between spaces; one that is not a whole number of 0..255 is a
    malformed numeric range, and the token has no result. *)
Definition parse_channel (lexeme : string) : option nat :=
  let unsigned :=
    match trim lexeme with
    | String "+" s => s
    | s => s
    end in
  match unsigned with
  | EmptyString => None
  | _ =>
      match decimal unsigned 0 with
      | Some n => if Nat.leb n 255 then Some n else None
      | None => None
      end
  end.

(** The lexeme of an alpha, split at its point. *)
Fixpoint split_point (s int : string) : string * option string :=
  match s with
  | EmptyString => (int, None)
  | String c s' =>
      if Ascii.eqb c "."
      then (int, Some s')
      else split_point s' (int ++ String c EmptyString)
  end.

(** The alpha of a token, in the shape that the pattern of the walker
    gives it: an optional sign, digits, and optionally a point and
    digits, with a digit at the end.  [(negative, n, d)] stands for
    plus or minus [n / 10 ^ d]; the value is kept as this exact decimal
    (the package reads it with [parseFloat]). *)
Definition parse_alpha (lexeme : string) : option (bool * nat * nat) :=
  let signed :=
    match lexeme with
    | String "-" s => (true, s)
    | String "+" s => (false, s)
    | s => (false, s)
    end in
  match split_point (snd signed) EmptyString with
  | (EmptyString, None) => None
  | (int, None) =>
      option_map (fun n => (fst signed, n, 0)) (decimal_value int 0)
  | (_, Some EmptyString) => None
  | (int, Some frac) =>
      option_map (fun n => (fst signed, n, String.length frac))
                 (decimal_value (int ++ frac) 0)
  end.

(** Modelled from the spec: [rgb(...)] or [rgba(...)] with three
    channels and an optional fourth, the alpha, which has to be a
    number. *)
Definition get_rgb (token : string) : option Color :=
  let args :=
    match strip_prefix "rgba(" token with
    | Some rest => Some rest
    | None => strip_prefix "rgb(" token
    end in
  match args with
  | Some rest =>
      match fields "," ")" rest EmptyString with
      | Some [r; g; b] =>
          rgb (parse_channel r) (parse_channel g) (parse_channel b) None
      | Some [r; g; b; a] =>
          match parse_alpha (trim a) with
          | Some _ =>
              rgb (parse_channel r) (parse_channel g) (parse_channel b)
                  (Some (trim a))
          | None => None
          end
      | _ => None
      end
  | None => None
  end.

(** Modelled from the spec: [cs.get] of the color-string package, on
    the two lexical shapes of section 4.1; no result on a token that
    does not resolve. *)
Definition get (token : string) : option Color :=
  match get_hex token with
  | Some color => Some color
  | None => get_rgb token
  end.

Definition hex_digit (d : nat) : ascii :=
  if Nat.ltb d 10 then ascii_of_nat (48 + d) else ascii_of_nat (87 + d).

Definition hexDouble (n : nat) : string :=
  String (hex_digit (n / 16)) (String (hex_digit (n mod 16)) EmptyString).

(** The byte of an alpha below 1, as the package computes it: the
    alpha, kept between 0 and 1, times 255 and rounded to the nearest
    whole number, a half upwards ([Math.round]).  No byte for an alpha
    of 1 or more. *)
Definition alpha_byte (lexeme : string) : option nat :=
  match parse_alpha lexeme with
  | Some (negative, n, d) =>
      if negative then Some 0
      else if Nat.leb (10 ^ d) n then None
      else Some ((2 * 255 * n + 10 ^ d) / (2 * 10 ^ d))
  | None => None
  end.

(** What [cs.to.hex] puts after the six digits. *)
Definition alpha_suffix (color : Color) : string :=
  match alpha color with
  | Some lexeme =>
      match alpha_byte lexeme with
      | Some byte => hexDouble byte
      | None => EmptyString
      end
  | None => EmptyString
  end.

(** Modelled from the spec: [cs.to.hex] of the color-string package,
    the six hex digits of the three channels, in lower case as in the
    spec's examples.  Against the words of the spec the alpha is not
    ignored: [extract.ts] hands [color.value] with its alpha to
    [cs.to.hex], which, as the package documents it
    ([to.hex([0, 0, 255, 0.4])] is [#0000FF66]), puts the byte of an
    alpha below 1 after the six digits. *)
Definition to_hex (color : Color) : string :=
  "#" ++ hexDouble (red color) ++ hexDouble (green color)
      ++ hexDouble (blue color) ++ alpha_suffix color.

(** The Normalizer: a matched token to its canonical color. *)
Definition normalize (token : string) : option string :=
  option_map to_hex (get token).

(** A canonical color: [#] and six lower-case hex digits. *)
Definition is_canonical_digit (c : ascii) : bool :=
  between "0" "9" c || between "a" "f" c.

Fixpoint all_chars (p : ascii -> bool) (s : string) : bool :=
  match s with
  | EmptyString => true
  | String c s' => p c && all_chars p s'
  end.

Definition canonical (s : string) : bool :=
  match s with
  | String "#" digits =>
      Nat.eqb (String.length digits) 6 && all_chars is_canonical_digit digits
  | _ => false
  end.

(** A color with its alpha byte: [#] and eight lower-case hex digits. *)
Definition canonical_alpha (s : string) : bool :=
  match s with
  | String "#" digits =>
      Nat.eqb (String.length digits) 8 && all_chars is_canonical_digit digits
  | _ => false
  end.


Definition in_range (color : Color) : Prop :=
  red color <= 255 /\ green color <= 255 /\ blue color <= 255.

(** The tokens of the two shapes, from their digits and from their
    channel lexemes. *)
Definition hex3 (a b c : ascii) : string :=
  String "#" (String a (String b (String c EmptyString))).

Definition hex6 (a b c d e f : ascii) : string :=
  String "#" (String a (String b (String c
    (String d (String e (String f EmptyString)))))).



Definition is_hex (c : ascii) : bool :=
  between "0" "9" c || between "A" "F" c || between "a" "f" c.


(** Every character, and the check that the two digits of a channel
    are printed back in lower case. *)
Definition all_ascii : list ascii := map ascii_of_nat (seq 0 256).

Definition prints_back (a b : ascii) : bool :=
  match channel a b with
  | Some n =>
      String.eqb (hexDouble n)
                 (String (to_lower a) (String (to_lower b) EmptyString))
      && Nat.leb n 255
  | None => false
  end.

End ColorString.

(** ** Vocabulary of the properties *)

(** A node that lies in a sequence of nodes, directly or below rule
    nodes at any depth. *)
Inductive under_rules (d : ChildNode) : list ChildNode -> Prop :=
| under_here nodes : In d nodes -> under_rules d nodes
| under_rule sel inner nodes :
    In (Rule sel inner) nodes -> under_rules d inner -> under_rules d nodes.

(** The tree with the content of every at-rule removed. *)
Fixpoint empty_atrules (n : ChildNode) : ChildNode :=
  match n with
  | Rule sel nodes => Rule sel (map empty_atrules nodes)
  | AtRule name params _ => AtRule name params []
  | Declaration prop value => Declaration prop value
  | Comment text => Comment text
  end.

(** A pattern each of whose alternatives ends with [$]. *)
Fixpoint anchored (r : regex) : bool :=
  match r with
  | Eol => true
  | Seq _ r2 => anchored r2
  | Alt r1 r2 => anchored r1 && anchored r2
  | _ => false
  end.

(** The values of the declarations of a tree, depth first through
    rule nodes. *)
Fixpoint decl_values (n : ChildNode) : list string :=
  match n with
  | Rule _ nodes => flat_map decl_values nodes
  | Declaration _ value => [value]
  | AtRule _ _ _ => []
  | Comment _ => []
  end.

Definition decl_values_all (nodes : list ChildNode) : list string :=
  flat_map decl_values nodes.

(** The entries that the loop of [main] reaches: all of them, or those
    up to the first stylesheet that cannot be read or parsed. *)
Fixpoint attempted (parse : string -> Async.exn + list ChildNode)
  (files : list Pipeline.File) : list Pipeline.File :=
  match files with
  | [] => []
  | file :: files' =>
      if Pipeline.readable parse file
      then file :: attempted parse files'
      else [file]
  end.

(** What comes before the closing parenthesis in the [rgb] pattern. *)
Definition rgb_prefix : list regex :=
  [chr "r"; chr "g"; chr "b"; Opt (chr "a"); chr "("; Star space;
   number; comma; number; comma; number;
   Opt (seqs [comma; number] (Star space))]%char.

(** A world whose archive has no stylesheet: a text file, and a Sass
    file that cannot be read. *)
Module FixtureDocs.
Import Async Pipeline.

Local Open Scope string_scope.

Definition site_scss : File :=
  {| path := "r-main/site.scss"; buffer := inl "EIO" |}.

Definition files : list File := [Fixture.readme; site_scss].

Definition fetch (url : string) : exn + string := inr "zip:docs".

Definition Open_buffer (bytes : string) : exn + list File := inr files.

End FixtureDocs.

(** What a pattern matches, without the order of the search: [r]
    matches at index [i], where the input is [s], up to index [j], where
    the input left is [t]. *)
Inductive matches (icase : bool)
  : regex -> nat -> string -> nat -> string -> Prop :=
| m_chars cl c s i :
    in_class icase cl c = true ->
    matches icase (Chars cl) i (String c s) (S i) s
| m_bol s : matches icase Bol 0 s 0 s
| m_eol i : matches icase Eol i EmptyString i EmptyString
| m_seq r1 r2 i s j t j' t' :
    matches icase r1 i s j t -> matches icase r2 j t j' t' ->
    matches icase (Seq r1 r2) i s j' t'
| m_alt_l r1 r2 i s j t :
    matches icase r1 i s j t -> matches icase (Alt r1 r2) i s j t
| m_alt_r r1 r2 i s j t :
    matches icase r2 i s j t -> matches icase (Alt r1 r2) i s j t
| m_opt_some r i s j t :
    matches icase r i s j t -> matches icase (Opt r) i s j t
| m_opt_none r i s : matches icase (Opt r) i s i s
| m_star_none cl i s : matches icase (Star cl) i s i s
| m_star_more cl c s i j t :
    in_class icase cl c = true ->
    matches icase (Star cl) (S i) s j t ->
    matches icase (Star cl) i (String c s) j t.

(** Strings of digits and strings of spaces. *)
Definition digits_only (s : string) : bool :=
  ColorString.all_chars (in_class true digit) s.

Definition spaces_only (s : string) : bool :=
  ColorString.all_chars (in_class true space) s.

(** * Properties *)

(** ** Insertion-ordered sets and first-seen order *)

Section SetFacts.

Lemma has_true_iff x s : JSSet.has x s = true <-> In x s.
Proof.
  unfold JSSet.has. rewrite existsb_exists. split.
  - intros [y [Hy E]]. apply String.eqb_eq in E. now subst.
  - intros H. exists x. split; [assumption | apply String.eqb_refl].
Qed.

Lemma filter_both (p q : string -> bool) l :
  filter p (filter q l) = filter (fun x => q x && p x) l.
Proof.
  induction l as [|x l IH]; simpl; [reflexivity|].
  destruct (q x); simpl; [destruct (p x)|]; now rewrite IH.
Qed.

Lemma filter_swap (p q : string -> bool) l :
  filter p (filter q l) = filter q (filter p l).
Proof.
  rewrite !filter_both. apply filter_ext. intros a. apply andb_comm.
Qed.

Lemma first_seen_filter p l :
  first_seen (filter p l) = filter p (first_seen l).
Proof.
  induction l as [|x l IH]; simpl; [reflexivity|].
  destruct (p x) eqn:Hp; simpl; rewrite IH.
  - f_equal. apply filter_swap.
  - rewrite !filter_both. apply filter_ext_in. intros a _.
    destruct (String.eqb x a) eqn:E; simpl; [|reflexivity].
    apply String.eqb_eq in E. subst a. exact Hp.
Qed.

Lemma first_seen_In x l : In x (first_seen l) <-> In x l.
Proof.
  induction l as [|y l IH]; simpl; [tauto|].
  rewrite filter_In, IH. split.
  - intros [H|[H _]]; auto.
  - intros [H|H]; auto.
    destruct (String.eqb y x) eqn:E.
    + left. now apply String.eqb_eq.
    + right. split; [assumption|reflexivity].
Qed.

Lemma first_seen_NoDup l : NoDup (first_seen l).
Proof.
  induction l as [|y l IH]; simpl; constructor.
  - rewrite filter_In. intros [_ H]. now rewrite String.eqb_refl in H.
  - now apply NoDup_filter.
Qed.

Lemma first_seen_idem l : first_seen (first_seen l) = first_seen l.
Proof.
  induction l as [|y l IH]; simpl; [reflexivity|].
  f_equal. rewrite first_seen_filter, IH, filter_both.
  apply filter_ext. intros a. apply andb_diag.
Qed.

(** A later occurrence changes nothing: what follows a prefix adds its
    new members, in their own first-seen order, after the prefix's. *)
Lemma first_seen_app l1 l2 :
  first_seen (l1 ++ l2)
  = first_seen l1
    ++ filter (fun c => negb (JSSet.has c l1)) (first_seen l2).
Proof.
  induction l1 as [|x l1 IH]; simpl.
  - symmetry. erewrite filter_ext; [apply filter_true|]. reflexivity.
  - f_equal. rewrite IH, filter_app, filter_both. f_equal.
    apply filter_ext. intros a. unfold JSSet.has. simpl.
    rewrite (String.eqb_sym a x), negb_orb. apply andb_comm.
Qed.

Lemma add_all_spec l acc :
  JSSet.add_all l acc
  = acc ++ first_seen (filter (fun c => negb (JSSet.has c acc)) l).
Proof.
  revert acc. induction l as [|x l IH]; intros acc; simpl.
  - now rewrite app_nil_r.
  - unfold JSSet.add_all in *. simpl. rewrite IH. unfold JSSet.add.
    destruct (JSSet.has x acc) eqn:Hx; simpl; [reflexivity|].
    rewrite <- app_assoc. simpl. do 2 f_equal.
    rewrite <- first_seen_filter, filter_both. f_equal.
    apply filter_ext. intros a. unfold JSSet.has.
    rewrite existsb_app. simpl.
    rewrite orb_false_r, negb_orb, (String.eqb_sym a x). reflexivity.
Qed.

Lemma add_all_empty l : JSSet.add_all l JSSet.empty = first_seen l.
Proof.
  rewrite add_all_spec. simpl. f_equal.
  erewrite filter_ext; [apply filter_true|]. reflexivity.
Qed.

Lemma add_all_first_seen l acc :
  JSSet.add_all (first_seen l) acc = JSSet.add_all l acc.
Proof.
  rewrite !add_all_spec. f_equal.
  now rewrite <- first_seen_filter, first_seen_idem.
Qed.

Lemma add_all_app l1 l2 acc :
  JSSet.add_all (l1 ++ l2) acc = JSSet.add_all l2 (JSSet.add_all l1 acc).
Proof. apply fold_left_app. Qed.

End SetFacts.

(** ** The walker against the colors in document order *)

Section WalkerFacts.

Variable Color : Type.
Variable cs_get : string -> option Color.
Variable cs_to_hex : Color -> string.

Local Abbreviation recursion := (recursion Color cs_get cs_to_hex).
Local Abbreviation recursion_from := (recursion_from Color cs_get cs_to_hex).
Local Abbreviation visit := (visit Color cs_get cs_to_hex).
Local Abbreviation emitted := (emitted Color cs_get cs_to_hex).
Local Abbreviation emitted_all := (emitted_all Color cs_get cs_to_hex).
Local Abbreviation value_colors := (value_colors Color cs_get cs_to_hex).

Lemma visit_Rule sel nodes hexColors :
  visit (Rule sel nodes) hexColors
  = JSSet.add_all (JSSet.to_array (recursion nodes)) hexColors.
Proof.
  unfold Walker.recursion, Walker.recursion_from, JSSet.to_array.
  simpl. f_equal.
Qed.

Lemma add_matched_spec matchedArr hexColors :
  add_matched Color cs_get cs_to_hex matchedArr hexColors
  = JSSet.add_all
      (flat_map (fun matched =>
                   match cs_get matched with
                   | Some color => [cs_to_hex color]
                   | None => []
                   end) matchedArr)
      hexColors.
Proof.
  revert hexColors. unfold add_matched.
  induction matchedArr as [|m l IH]; intros acc; simpl; [reflexivity|].
  rewrite IH, add_all_app. destruct (cs_get m); reflexivity.
Qed.

Lemma visit_decl_spec value hexColors :
  visit_decl Color cs_get cs_to_hex value hexColors
  = JSSet.add_all (value_colors value) hexColors.
Proof.
  unfold visit_decl, Walker.value_colors.
  destruct (match_colors value) as [l|]; [|reflexivity].
  destruct l as [|m l]; [reflexivity|].
  change (Nat.eqb (List.length (m :: l)) 0) with false. cbv iota.
  apply add_matched_spec.
Qed.

Lemma recursion_from_Forall nodes :
  Forall (fun n => forall acc, visit n acc = JSSet.add_all (emitted n) acc)
         nodes ->
  forall acc,
    recursion_from nodes acc = JSSet.add_all (emitted_all nodes) acc.
Proof.
  unfold Walker.recursion_from, Walker.emitted_all.
  induction 1 as [|n ns Hn _ IH]; intros acc; simpl; [reflexivity|].
  now rewrite IH, Hn, add_all_app.
Qed.

Lemma visit_spec n :
  forall acc, visit n acc = JSSet.add_all (emitted n) acc.
Proof.
  induction n as [sel ns IH|name params ns _|prop value|text]
    using ChildNode_nested_ind; intros acc.
  - rewrite visit_Rule. unfold JSSet.to_array, Walker.recursion.
    rewrite (recursion_from_Forall ns IH), add_all_empty, add_all_first_seen.
    reflexivity.
  - reflexivity.
  - apply visit_decl_spec.
  - reflexivity.
Qed.

Lemma recursion_from_spec nodes acc :
  recursion_from nodes acc = JSSet.add_all (emitted_all nodes) acc.
Proof.
  apply recursion_from_Forall. apply Forall_forall. intros n _.
  apply visit_spec.
Qed.

Lemma recursion_spec nodes :
  recursion nodes = first_seen (emitted_all nodes).
Proof.
  unfold Walker.recursion. now rewrite recursion_from_spec, add_all_empty.
Qed.

Lemma recursion_In c nodes :
  In c (recursion nodes) <-> In c (emitted_all nodes).
Proof. rewrite recursion_spec. apply first_seen_In. Qed.

End WalkerFacts.

(** ** The color pattern *)

Section RegExpFacts.

Variable icase : bool.

Lemma star_reaches p : forall s i k e,
  star p i s k = Some e ->
  exists j t, k j t = Some e /\ j + String.length t = i + String.length s.
Proof.
  induction s as [|c s IH]; intros i k e H; simpl in H.
  - now exists i, EmptyString.
  - destruct (p c).
    + destruct (star p (S i) s k) as [e'|] eqn:E.
      * inversion H; subst e'. destruct (IH _ _ _ E) as (j & t & Hk & Hl).
        exists j, t. split; [assumption|simpl; lia].
      * now exists i, (String c s).
    + now exists i, (String c s).
Qed.

Lemma run_reaches r : forall i s k e,
  run icase r i s k = Some e ->
  exists j t, k j t = Some e /\ j + String.length t = i + String.length s.
Proof.
  induction r as [cl| | |r1 IH1 r2 IH2|r1 IH1 r2 IH2|r IH|cl];
    intros i s k e H; simpl in H.
  - destruct s as [|c s]; [discriminate|].
    destruct (in_class icase cl c); [|discriminate].
    exists (S i), s. split; [assumption|simpl; lia].
  - destruct (Nat.eqb i 0); [|discriminate]. now exists i, s.
  - destruct s; [|discriminate]. now exists i, EmptyString.
  - destruct (IH1 _ _ _ _ H) as (j & t & Hk & Hl).
    destruct (IH2 _ _ _ _ Hk) as (j' & t' & Hk' & Hl').
    exists j', t'. split; [assumption|lia].
  - destruct (run icase r1 i s k) as [e'|] eqn:E.
    + inversion H; subst e'. eauto.
    + eauto.
  - destruct (run icase r i s k) as [e'|] eqn:E.
    + inversion H; subst e'. eauto.
    + now exists i, s.
  - eapply star_reaches; eassumption.
Qed.

Lemma run_anchored r : anchored r = true -> forall i s k e,
  run icase r i s k = Some e -> k (i + String.length s) EmptyString = Some e.
Proof.
  induction r as [cl| | |r1 _ r2 IH2|r1 IH1 r2 IH2|r _|cl];
    simpl; intros A i s k e H; try discriminate.
  - destruct s; [|discriminate]. simpl. now rewrite Nat.add_0_r.
  - destruct (run_reaches _ _ _ _ _ H) as (j & t & Hk & Hl).
    rewrite <- Hl. now apply IH2.
  - apply andb_true_iff in A. destruct A as [A1 A2].
    destruct (run icase r1 i s k) as [e'|] eqn:E.
    + inversion H; subst e'. now apply IH1.
    + now apply IH2.
Qed.

Lemma exec_anchored r i s e :
  anchored r = true -> exec_at icase r i s = Some e -> e = i + String.length s.
Proof.
  intros A H. apply (run_anchored r A) in H. now inversion H.
Qed.

Variable r : regex.
Hypothesis r_anchored : anchored r = true.
Hypothesis r_not_empty : forall i, exec_at icase r i EmptyString = None.

Lemma scan_skip_all : forall s i, scan icase r (String.length s) i s = [].
Proof.
  induction s as [|c s IH]; intros i; simpl.
  - now rewrite r_not_empty.
  - apply IH.
Qed.

Lemma scan_anchored : forall s i,
  scan icase r 0 i s = []
  \/ exists before matched,
       s = (before ++ matched)%string /\ scan icase r 0 i s = [matched].
Proof.
  induction s as [|c s IH]; intros i.
  - left. simpl. now rewrite r_not_empty.
  - cbn [scan]. destruct (exec_at icase r i (String c s)) as [e|] eqn:E.
    + right. exists EmptyString, (String c s). split; [reflexivity|].
      apply exec_anchored in E; [|assumption]. subst e.
      replace (i + String.length (String c s) - i)
        with (S (String.length s)) by (simpl; lia).
      replace (S (String.length s) - 1) with (String.length s) by lia.
      rewrite scan_skip_all. unfold JSString.prefix. f_equal.
      change (S (String.length s)) with (String.length (String c s)).
      clear. induction (String c s) as [|a t IHt]; simpl; [reflexivity|].
      now rewrite IHt.
    + destruct (IH (S i)) as [H|(before & matched & Hs & H)]; [now left|].
      right. exists (String c before), matched. split; [|assumption].
      simpl. now rewrite Hs.
Qed.

End RegExpFacts.

Lemma colorReg_not_empty i : exec_at true colorReg i EmptyString = None.
Proof. destruct i; reflexivity. Qed.

Lemma match_colors_at_most_one value :
  match_colors value = None
  \/ exists before matched,
       value = (before ++ matched)%string
       /\ match_colors value = Some [matched].
Proof.
  unfold match_colors, match_g.
  destruct (scan_anchored true colorReg eq_refl colorReg_not_empty value 0)
    as [H|(before & matched & Hs & H)]; rewrite H; [now left|].
  right. now exists before, matched.
Qed.

(** ** Claims about the walker *)

(** C1.  The search over a declaration value does not find every color
    of the value.  Both alternatives of the pattern end with [$], so the
    search gives nothing or exactly one match, which ends the value: a
    value with two colors contributes at most the last of them, and the
    gradient below contributes none. *)
Theorem C1_one_match_per_value :
  (forall value,
      match_colors value = None
      \/ exists before matched,
           value = (before ++ matched)%string
           /\ match_colors value = Some [matched])
  /\ match_colors "linear-gradient(#ffffff, #000000)" = None
  /\ match_colors "rgb(255,0,0) rgb(0,0,255)" = Some ["rgb(0,0,255)"]
  /\ (forall Color cs_get cs_to_hex,
        recursion Color cs_get cs_to_hex
          [Rule "a" [Declaration "background"
                       "linear-gradient(#ffffff, #000000)"]]
        = []).
Proof.
  split; [exact match_colors_at_most_one|].
  repeat split; reflexivity.
Qed.

Section WalkerClaims.

Variable Color : Type.
Variable cs_get : string -> option Color.
Variable cs_to_hex : Color -> string.

Local Abbreviation recursion := (recursion Color cs_get cs_to_hex).
Local Abbreviation emitted := (emitted Color cs_get cs_to_hex).
Local Abbreviation emitted_all := (emitted_all Color cs_get cs_to_hex).
Local Abbreviation value_colors := (value_colors Color cs_get cs_to_hex).

Lemma emitted_under_rules d nodes c :
  under_rules d nodes -> In c (emitted d) -> In c (emitted_all nodes).
Proof.
  intros U Hc. induction U as [nodes Hd|sel inner nodes Hr _ IH].
  - apply in_flat_map. now exists d.
  - apply in_flat_map. exists (Rule sel inner). split; [assumption|].
    exact IH.
Qed.

(** C5.  A color of a declaration that lies below rule nodes, at any
    depth, is in the set the walker returns. *)
Theorem C5_nested_rules_are_walked nodes prop value c :
  under_rules (Declaration prop value) nodes ->
  In c (value_colors value) ->
  In c (recursion nodes).
Proof.
  intros U Hc. apply recursion_In.
  now apply (emitted_under_rules (Declaration prop value)).
Qed.

Lemma emitted_empty_atrules n : emitted (empty_atrules n) = emitted n.
Proof.
  induction n as [sel ns IH|name params ns _|prop value|text]
    using ChildNode_nested_ind; simpl; try reflexivity.
  induction IH as [|n ns Hn _ IHns]; simpl; [reflexivity|].
  now rewrite Hn, IHns.
Qed.

(** C10.  The walker has a branch for rule nodes and one for
    declarations only: the set it returns does not depend on what the
    at-rules of the tree contain, at any depth, and an at-rule among
    the nodes can be taken out without changing the set. *)
Theorem C10_at_rules_are_skipped :
  (forall nodes, recursion (map empty_atrules nodes) = recursion nodes)
  /\ (forall before name params inner after,
        recursion (before ++ AtRule name params inner :: after)
        = recursion (before ++ after))
  /\ (forall name params inner, recursion [AtRule name params inner] = []).
Proof.
  split; [|split].
  - intros nodes. rewrite !recursion_spec. f_equal.
    unfold Walker.emitted_all. rewrite flat_map_concat_map, map_map.
    rewrite flat_map_concat_map. f_equal. apply map_ext.
    apply emitted_empty_atrules.
  - intros. rewrite !recursion_spec. f_equal.
    unfold Walker.emitted_all. now rewrite !flat_map_app.
  - reflexivity.
Qed.

End WalkerClaims.

(** ** Claims about the pipeline *)

Section PipelineFacts.

Import Async Pipeline Grid Svg.

Variable new_URL : string -> exn + SearchParams.
Variable fetch : string -> exn + string.
Variable Open_buffer : string -> exn + list File.
Variable parse : string -> exn + list ChildNode.
Variable Color : Type.
Variable cs_get : string -> option Color.
Variable cs_to_hex : Color -> string.

Local Abbreviation collect := (collect parse Color cs_get cs_to_hex).
Local Abbreviation main := (main fetch Open_buffer parse Color cs_get cs_to_hex).
Local Abbreviation handler :=
  (handler new_URL fetch Open_buffer parse Color cs_get cs_to_hex).
Local Abbreviation emitted_file := (emitted_file parse Color cs_get cs_to_hex).
Local Abbreviation emitted_archive :=
  (emitted_archive parse Color cs_get cs_to_hex).
Local Abbreviation readable := (readable parse).
Local Abbreviation nodes_of := (nodes_of parse).

Lemma collect_readable : forall files hexColors tr,
  forallb readable files = true ->
  collect files hexColors tr
  = (inr (JSSet.add_all (flat_map emitted_file files) hexColors),
     tr ++ reads files).
Proof.
  induction files as [|f files IH]; intros acc tr R.
  - unfold reads. simpl. now rewrite app_nil_r.
  - simpl in R. apply andb_true_iff in R. destruct R as [Rf R].
    unfold reads. cbn [Pipeline.collect flat_map filter].
    unfold Pipeline.readable, Pipeline.emitted_file in *.
    destruct (isCSSRequest (path f)).
    + unfold Pipeline.nodes_of in *. unfold bind, await, lift.
      destruct (buffer f) as [e|text]; [discriminate|].
      destruct (parse text) as [e|nodes]; [discriminate|].
      rewrite IH by assumption. rewrite add_all_app.
      unfold JSSet.to_array. rewrite recursion_spec, add_all_first_seen.
      unfold reads. simpl. now rewrite <- app_assoc.
    + rewrite IH by assumption. reflexivity.
Qed.

Lemma collect_unreadable : forall files hexColors tr,
  forallb readable files = false ->
  exists e tr', collect files hexColors tr = (inl e, tr').
Proof.
  induction files as [|f files IH]; intros acc tr R; [discriminate|].
  simpl in R. cbn [Pipeline.collect].
  unfold Pipeline.readable in R at 1.
  destruct (isCSSRequest (path f)).
  - unfold Pipeline.nodes_of in R. unfold bind, await, lift.
    destruct (buffer f) as [e|text]; [eauto|].
    destruct (parse text) as [e|nodes]; [eauto|].
    simpl in R. now apply IH.
  - simpl in R. now apply IH.
Qed.

Lemma main_readable options bytes files :
  fetch (archive_url options) = inr bytes ->
  Open_buffer bytes = inr files ->
  forallb readable files = true ->
  run (main options)
  = (inr (toSvgAsString
            (toTwoDimensional (first_seen (emitted_archive files)) 10)),
     Fetch (archive_url options) :: OpenBuffer :: reads files).
Proof.
  intros Hf Ho R. unfold run, Pipeline.main, bind, await, ret.
  rewrite Hf, Ho. rewrite collect_readable by assumption.
  now rewrite add_all_empty.
Qed.

Lemma first_seen_position l1 c l2 :
  ~ In c l1 ->
  exists rest, first_seen (l1 ++ c :: l2) = first_seen l1 ++ c :: rest.
Proof.
  intros N. rewrite first_seen_app. simpl.
  destruct (JSSet.has c l1) eqn:H.
  - apply has_true_iff in H. contradiction.
  - simpl. eauto.
Qed.

(** C3.  When the archive is fetched and opened and its stylesheets
    parse, the pipeline renders one sequence of colors: what the
    stylesheets emit, entries in archive order and declarations in
    document order, each color kept at its first occurrence.  The
    sequence has no repetition and the members of what was emitted, and
    a color stands right after the distinct colors emitted before its
    first occurrence, whatever is emitted later. *)
Theorem C3_first_seen_order options bytes files :
  fetch (archive_url options) = inr bytes ->
  Open_buffer bytes = inr files ->
  forallb readable files = true ->
  fst (collect files JSSet.empty [])
  = inr (first_seen (emitted_archive files))
  /\ fst (run (main options))
     = inr (toSvgAsString
              (toTwoDimensional (first_seen (emitted_archive files)) 10))
  /\ NoDup (first_seen (emitted_archive files))
  /\ (forall c, In c (first_seen (emitted_archive files))
                <-> In c (emitted_archive files))
  /\ (forall l1 c l2,
        emitted_archive files = l1 ++ c :: l2 -> ~ In c l1 ->
        exists rest,
          first_seen (emitted_archive files) = first_seen l1 ++ c :: rest).
Proof.
  intros Hf Ho R. split; [|split; [|split; [|split]]].
  - rewrite collect_readable by assumption. simpl. now rewrite add_all_empty.
  - now rewrite (main_readable options bytes files).
  - apply first_seen_NoDup.
  - intros c. apply first_seen_In.
  - intros l1 c l2 E N. rewrite E. now apply first_seen_position.
Qed.

Lemma handler_of_main rawUrl options :
  getSearchParams new_URL rawUrl = inr (Some options) ->
  (forall e tr, run (main options) = (inl e, tr) ->
     run (handler rawUrl) = (inr server_error, tr ++ [ConsoleLog e]))
  /\ (forall svg tr, run (main options) = (inr svg, tr) ->
       run (handler rawUrl)
       = (inr {| statusCode := 200; body := Some svg;
                 headers_field := Some HEADERS |}, tr)).
Proof.
  intros G. unfold run, Pipeline.handler, bind, lift, try_catch.
  rewrite G. split; intros x tr H; unfold run in H; rewrite H; reflexivity.
Qed.

Lemma main_fails options :
  (exists e, fetch (archive_url options) = inl e)
  \/ (exists bytes e,
        fetch (archive_url options) = inr bytes
        /\ Open_buffer bytes = inl e)
  \/ (exists bytes files,
        fetch (archive_url options) = inr bytes
        /\ Open_buffer bytes = inr files
        /\ forallb readable files = false) ->
  exists e tr, run (main options) = (inl e, tr).
Proof.
  unfold run, Pipeline.main, bind, await, ret.
  intros [[e Hf]|[(bytes & e & Hf & Ho)|(bytes & files & Hf & Ho & R)]].
  - rewrite Hf. eauto.
  - rewrite Hf, Ho. eauto.
  - rewrite Hf, Ho.
    destruct (collect_unreadable files JSSet.empty
                [Fetch (archive_url options); OpenBuffer] R) as (e & tr & H).
    simpl. simpl in H. rewrite H. eauto.
Qed.

(** C8.  With the three parameters present, a failure of the fetch, of
    the opening of the archive, or of the reading or parsing of any
    stylesheet of the archive makes the handler answer 500 without a
    body: nothing of what the other stylesheets gave is returned. *)
Theorem C8_failure_is_500_without_body rawUrl options :
  getSearchParams new_URL rawUrl = inr (Some options) ->
  (exists e, fetch (archive_url options) = inl e)
  \/ (exists bytes e,
        fetch (archive_url options) = inr bytes
        /\ Open_buffer bytes = inl e)
  \/ (exists bytes files,
        fetch (archive_url options) = inr bytes
        /\ Open_buffer bytes = inr files
        /\ forallb readable files = false) ->
  exists tr,
    run (handler rawUrl) = (inr server_error, tr)
    /\ statusCode server_error = 500
    /\ body server_error = None.
Proof.
  intros G F. destruct (main_fails options F) as (e & tr & H).
  destruct (handler_of_main rawUrl options G) as [Herr _].
  exists (tr ++ [ConsoleLog e]). split; [now apply Herr|split; reflexivity].
Qed.

(** C9.  When [repo], [owner] or [branch] is absent from the query of
    the request, the handler answers 400 without a body and its trace
    is empty: nothing was fetched, opened or read. *)
Theorem C9_missing_parameter_is_400 rawUrl searchParams :
  new_URL rawUrl = inr searchParams ->
  has searchParams "repo" = false
  \/ has searchParams "owner" = false
  \/ has searchParams "branch" = false ->
  run (handler rawUrl) = (inr bad_request, [])
  /\ statusCode bad_request = 400
  /\ body bad_request = None.
Proof.
  intros U Missing. split; [|split; reflexivity].
  unfold run, Pipeline.handler, bind, lift, Pipeline.getSearchParams.
  rewrite U.
  replace (negb (has searchParams "repo") || negb (has searchParams "owner")
           || negb (has searchParams "branch")) with true; [reflexivity|].
  destruct Missing as [H|[H|H]]; rewrite H; simpl;
    rewrite ?orb_true_r; reflexivity.
Qed.

End PipelineFacts.

(** ** The grid *)

Section GridFacts.

Import Grid.

Ltac Zify.zify_post_hook ::= Z.to_euclidean_division_equations.

(** The rows that the indices [s .. s + m - 1] of [arr] give. *)
Local Abbreviation rows_at arr :=
  (flat_map (fun i => if Nat.eqb (i mod 10) 0
                      then [slice arr i (i + 10)] else [])).

Lemma flat_map_index {A B : Type} (h : nat -> list B) : forall (l : list A) s,
  flat_map (fun p => h (fst p)) (combine (seq s (List.length l)) l)
  = flat_map h (seq s (List.length l)).
Proof.
  induction l as [|x l IH]; intros s; simpl; [reflexivity|].
  now rewrite IH.
Qed.

Lemma toTwoDimensional_seq (arr : list string) :
  toTwoDimensional arr 10 = rows_at arr (seq 0 (List.length arr)).
Proof.
  unfold toTwoDimensional, flatMap.
  apply (flat_map_index
           (fun i => if Nat.eqb (i mod 10) 0
                     then [slice arr i (i + 10)] else [])).
Qed.

Lemma rows_at_none (arr : list string) : forall m s,
  (forall i, s <= i < s + m -> i mod 10 <> 0) ->
  rows_at arr (seq s m) = [].
Proof.
  induction m as [|m IH]; intros s H; [reflexivity|].
  cbn [seq flat_map].
  destruct (Nat.eqb_spec (s mod 10) 0) as [E|_].
  - exfalso. apply (H s); [lia|assumption].
  - cbn [app]. apply IH. intros i Hi. apply H. lia.
Qed.

Lemma rows_at_shift (arr : list string) : forall m s,
  rows_at arr (seq (10 + s) m) = rows_at (skipn 10 arr) (seq s m).
Proof.
  induction m as [|m IH]; intros s; [reflexivity|].
  cbn [seq flat_map]. rewrite <- IH. f_equal.
  replace ((10 + s) mod 10) with (s mod 10) by lia.
  destruct (Nat.eqb (s mod 10) 0); [|reflexivity].
  unfold slice. rewrite skipn_skipn.
  replace (10 + s + 10 - (10 + s)) with (s + 10 - s) by lia.
  now rewrite (Nat.add_comm s 10).
Qed.

Lemma toTwoDimensional_cons x (arr : list string) :
  toTwoDimensional (x :: arr) 10
  = firstn 10 (x :: arr) :: toTwoDimensional (skipn 10 (x :: arr)) 10.
Proof.
  rewrite !toTwoDimensional_seq. rewrite length_skipn.
  change (List.length (x :: arr)) with (S (List.length arr)).
  cbn [seq flat_map]. change (0 mod 10) with 0. cbn [Nat.eqb app].
  f_equal. destruct (le_lt_dec 9 (List.length arr)) as [L|L].
  - replace (List.length arr) with (9 + (List.length arr - 9)) at 1 by lia.
    rewrite seq_app, flat_map_app.
    rewrite rows_at_none by (intros i Hi; lia).
    change (1 + 9) with (10 + 0). rewrite rows_at_shift.
    replace (S (List.length arr) - 10) with (List.length arr - 9) by lia.
    reflexivity.
  - rewrite rows_at_none by (intros i Hi; lia).
    replace (S (List.length arr) - 10) with 0 by lia. reflexivity.
Qed.

Lemma toTwoDimensional_nil : toTwoDimensional [] 10 = [].
Proof. reflexivity. Qed.

Lemma toTwoDimensional_rows (arr : list string) :
  List.length (toTwoDimensional arr 10) = (List.length arr + 9) / 10
  /\ (forall i, i < List.length arr / 10 ->
        List.length (nth i (toTwoDimensional arr 10) []) = 10)
  /\ (List.length arr mod 10 <> 0 ->
        List.length (last (toTwoDimensional arr 10) [])
        = List.length arr mod 10)
  /\ (List.length arr mod 10 = 0 -> 0 < List.length arr ->
        List.length (last (toTwoDimensional arr 10) []) = 10)
  /\ (List.length arr = 0 -> toTwoDimensional arr 10 = [])
  /\ List.concat (toTwoDimensional arr 10) = arr.
Proof.
  remember (List.length arr) as n eqn:Hn. revert arr Hn.
  induction n as [n IH] using lt_wf_ind. intros arr Hn.
  destruct arr as [|x arr].
  - subst n. rewrite toTwoDimensional_nil. cbn [List.length List.concat last].
    repeat split; try reflexivity; try lia.
  - rewrite toTwoDimensional_cons.
    assert (Hl : List.length (skipn 10 (x :: arr)) = n - 10)
      by (rewrite length_skipn; lia).
    assert (Hf : List.length (firstn 10 (x :: arr)) = Nat.min 10 n)
      by (rewrite length_firstn; lia).
    assert (Hpos : 0 < n) by (subst n; simpl; lia).
    destruct (IH (n - 10) ltac:(lia) (skipn 10 (x :: arr)) (eq_sym Hl))
      as (R1 & R2 & R3 & R4 & R5 & R6).
    set (rest := toTwoDimensional (skipn 10 (x :: arr)) 10) in *.
    split; [|split; [|split; [|split; [|split]]]].
    + cbn [List.length]. rewrite R1. lia.
    + intros [|i] Hi; cbn [nth].
      * rewrite Hf. lia.
      * apply R2. lia.
    + intros M. destruct rest as [|r rest'] eqn:Er.
      * cbn [last]. rewrite Hf. cbn [List.length] in R1. lia.
      * change (last (firstn 10 (x :: arr) :: r :: rest') [])
          with (last (r :: rest') []).
        cbn [List.length] in R1.
        rewrite R3 by lia. lia.
    + intros M _. destruct rest as [|r rest'] eqn:Er.
      * cbn [last]. rewrite Hf. cbn [List.length] in R1. lia.
      * change (last (firstn 10 (x :: arr) :: r :: rest') [])
          with (last (r :: rest') []).
        cbn [List.length] in R1.
        apply R4; lia.
    + lia.
    + cbn [List.concat]. rewrite R6. apply firstn_skipn.
Qed.

(** C4.  The grid of a sequence of [N] colors has [ceil(N/10)] rows;
    each of the first [floor(N/10)] has 10 cells; the last has [N mod 10]
    cells, or 10 when [N] is a positive multiple of 10; without colors
    there is no row.  The rows, one after the other, are the sequence. *)
Theorem C4_grid_partition (arr : list string) :
  List.length (toTwoDimensional arr 10) = (List.length arr + 9) / 10
  /\ (forall i, i < List.length arr / 10 ->
        List.length (nth i (toTwoDimensional arr 10) []) = 10)
  /\ (List.length arr mod 10 <> 0 ->
        List.length (last (toTwoDimensional arr 10) [])
        = List.length arr mod 10)
  /\ (List.length arr mod 10 = 0 -> 0 < List.length arr ->
        List.length (last (toTwoDimensional arr 10) []) = 10)
  /\ (List.length arr = 0 -> toTwoDimensional arr 10 = [])
  /\ List.concat (toTwoDimensional arr 10) = arr.
Proof. exact (toTwoDimensional_rows arr). Qed.

End GridFacts.

(** ** The vector document *)

Section SvgFacts.

Import JSString Grid Svg.

Lemma append_assoc (a b c : string) :
  ((a ++ b) ++ c = a ++ (b ++ c))%string.
Proof. induction a as [|x a IH]; simpl; [reflexivity|now rewrite IH]. Qed.

Lemma append_empty_r (a : string) : (a ++ EmptyString)%string = a.
Proof. induction a as [|x a IH]; simpl; [reflexivity|now rewrite IH]. Qed.

Lemma join_app l1 l2 : join (l1 ++ l2) = (join l1 ++ join l2)%string.
Proof.
  induction l1 as [|x l1 IH]; simpl; [reflexivity|].
  now rewrite IH, append_assoc.
Qed.

(** A counting loop that reads [a[i]] at each turn is a loop over the
    members of [a]. *)
Lemma for_loop_fold {A St : Type} (d : A) (f : nat -> A -> St -> St) :
  forall rest pre st,
    for_loop (List.length rest) (List.length pre)
      (fun i st => f i (nth i (pre ++ rest) d) st) st
    = fold_indexed f (List.length pre) rest st.
Proof.
  induction rest as [|x rest IH]; intros pre st; [reflexivity|].
  cbn [List.length for_loop fold_indexed].
  rewrite nth_middle.
  replace (pre ++ x :: rest) with ((pre ++ [x]) ++ rest)
    by (now rewrite <- app_assoc).
  replace (S (List.length pre)) with (List.length (pre ++ [x]))
    by (rewrite length_app; simpl; lia).
  apply IH.
Qed.

(** The template literal of a tile gives the text of the tile of 64
    by 64. *)
Lemma rect_tile_text x y fill :
  rect x y fill
  = tile_text {| tile_x := x; tile_y := y; tile_width := 64;
                 tile_height := 64; tile_fill := fill |}.
Proof.
  unfold rect, attr, tile_text, dq.
  cbn [tile_x tile_y tile_width tile_height tile_fill].
  change (of_nat 64) with "64"%string.
  rewrite !append_assoc. cbn [append]. reflexivity.
Qed.

(** The template literal of the opening tag, the tiles and the end tag
    give the text of the document. *)
Lemma open_tag_serialize width height tiles :
  (open_tag width height ++ join (map tile_text tiles) ++ "</svg>")%string
  = serialize {| doc_width := width; doc_height := height;
                 doc_tiles := tiles |}.
Proof.
  unfold open_tag, attr, serialize, dq, nl.
  cbn [doc_width doc_height doc_tiles].
  rewrite !append_assoc. cbn [append]. reflexivity.
Qed.

Lemma row_loop i : forall row j st,
  fold_indexed (fun j color st => (st ++ rect (j * 64) (i * 64) color)%string)
    j row st
  = (st ++ join (map tile_text (row_tiles i j row)))%string.
Proof.
  induction row as [|c row IH]; intros j st.
  - simpl. now rewrite append_empty_r.
  - cbn [fold_indexed row_tiles map join fold_right].
    rewrite IH, append_assoc, rect_tile_text. reflexivity.
Qed.

Lemma rows_loop : forall rows i st,
  fold_indexed
    (fun i row st =>
       for_loop (List.length row) 0
         (fun j st => (st ++ rect (j * 64) (i * 64) (cell_at row j))%string)
         st)
    i rows st
  = (st ++ join (map tile_text (grid_tiles i rows)))%string.
Proof.
  induction rows as [|row rows IH]; intros i st; simpl.
  - now rewrite append_empty_r.
  - rewrite IH. unfold cell_at.
    pose proof (for_loop_fold "undefined"
                  (fun j color st => (st ++ rect (j * 64) (i * 64) color)%string)
                  row [] st) as E.
    cbn [List.length app] in E. rewrite E.
    rewrite row_loop, map_app, join_app. now rewrite append_assoc.
Qed.

Lemma toSvgAsString_grid rows :
  toSvgAsString rows = serialize (grid_document rows).
Proof.
  unfold toSvgAsString, grid_document, row_at.
  pose proof (for_loop_fold []
                (fun i row st =>
                   for_loop (List.length row) 0
                     (fun j st =>
                        (st ++ rect (j * 64) (i * 64) (cell_at row j))%string)
                     st)
                rows [] (open_tag (64 * 10) (64 * List.length rows))) as E.
  cbn [List.length app] in E. rewrite E.
  rewrite rows_loop, append_assoc. change (64 * 10) with 640.
  apply open_tag_serialize.
Qed.

Lemma tiles_from_cons k c colors :
  tiles_from k (c :: colors) = tile_of k c :: tiles_from (S k) colors.
Proof. reflexivity. Qed.

Lemma tiles_from_app : forall l1 l2 k,
  tiles_from k (l1 ++ l2)
  = tiles_from k l1 ++ tiles_from (k + List.length l1) l2.
Proof.
  induction l1 as [|c l1 IH]; intros l2 k.
  - simpl. now rewrite Nat.add_0_r.
  - change ((c :: l1) ++ l2) with (c :: (l1 ++ l2)).
    rewrite !tiles_from_cons, IH. simpl. do 3 f_equal. lia.
Qed.

Lemma tiles_from_length k colors :
  List.length (tiles_from k colors) = List.length colors.
Proof.
  unfold tiles_from. rewrite length_map, length_combine, length_seq. lia.
Qed.

Lemma nth_error_indexed : forall (colors : list string) s k color,
  nth_error colors k = Some color ->
  nth_error (combine (seq s (List.length colors)) colors) k
  = Some (s + k, color).
Proof.
  induction colors as [|c colors IH]; intros s k color H.
  - destruct k; discriminate.
  - destruct k as [|k]; simpl in *.
    + inversion H. now rewrite Nat.add_0_r.
    + rewrite (IH (S s) k color H). do 2 f_equal. lia.
Qed.

Lemma row_tiles_from q : forall row j,
  j + List.length row <= 10 ->
  row_tiles q j row = tiles_from (10 * q + j) row.
Proof.
  induction row as [|c row IH]; intros j H; [reflexivity|].
  cbn [List.length] in H. cbn [row_tiles]. rewrite tiles_from_cons.
  rewrite IH by lia. unfold tile_of.
  replace ((10 * q + j) mod 10) with j by lia.
  replace ((10 * q + j) / 10) with q by lia.
  do 2 f_equal. lia.
Qed.

Lemma grid_tiles_from : forall n colors q,
  List.length colors <= n ->
  grid_tiles q (toTwoDimensional colors 10) = tiles_from (10 * q) colors.
Proof.
  induction n as [|n IH]; intros colors q H.
  - destruct colors; [reflexivity|simpl in H; lia].
  - destruct colors as [|c colors]; [reflexivity|].
    rewrite toTwoDimensional_cons. cbn [grid_tiles].
    rewrite IH by (rewrite length_skipn; simpl in *; lia).
    rewrite row_tiles_from by (rewrite length_firstn; lia).
    rewrite <- (firstn_skipn 10 (c :: colors)) at 3.
    rewrite tiles_from_app, Nat.add_0_r. f_equal.
    destruct (le_lt_dec 10 (List.length (c :: colors))) as [L|L].
    + f_equal. rewrite length_firstn. lia.
    + rewrite skipn_all2 by lia. reflexivity.
Qed.

Lemma grid_document_of colors :
  grid_document (toTwoDimensional colors 10) = document_of colors.
Proof.
  unfold grid_document, document_of.
  rewrite (grid_tiles_from (List.length colors) colors 0) by lia.
  destruct (toTwoDimensional_rows colors) as [L _]. now rewrite L.
Qed.

Lemma row_tiles_In i : forall row j color j0,
  nth_error row j = Some color ->
  In {| tile_x := (j0 + j) * 64; tile_y := i * 64;
        tile_width := 64; tile_height := 64; tile_fill := color |}
     (row_tiles i j0 row).
Proof.
  induction row as [|c row IH]; intros j color j0 H.
  - destruct j; discriminate.
  - destruct j as [|j]; simpl in *.
    + inversion H. left. now rewrite Nat.add_0_r.
    + right. replace (j0 + S j) with (S j0 + j) by lia. now apply IH.
Qed.

Lemma grid_tiles_In : forall rows i j row color i0,
  nth_error rows i = Some row -> nth_error row j = Some color ->
  In {| tile_x := j * 64; tile_y := (i0 + i) * 64;
        tile_width := 64; tile_height := 64; tile_fill := color |}
     (grid_tiles i0 rows).
Proof.
  induction rows as [|r rows IH]; intros i j row color i0 Hr Hc.
  - destruct i; discriminate.
  - cbn [grid_tiles]. apply in_or_app. destruct i as [|i]; simpl in Hr.
    + left. inversion Hr; subst r. rewrite Nat.add_0_r.
      exact (row_tiles_In i0 row j color 0 Hc).
    + right. replace (i0 + S i) with (S i0 + i) by lia. now apply (IH i j row).
Qed.

Lemma row_tiles_size : forall row i j t,
  In t (row_tiles i j row) -> tile_width t = 64 /\ tile_height t = 64.
Proof.
  induction row as [|c row IH]; intros i j t H; [contradiction|].
  cbn [row_tiles] in H. destruct H as [E|H].
  - subst t. split; reflexivity.
  - exact (IH i (S j) t H).
Qed.

Lemma grid_tiles_size : forall rows i t,
  In t (grid_tiles i rows) -> tile_width t = 64 /\ tile_height t = 64.
Proof.
  induction rows as [|row rows IH]; intros i t H; [contradiction|].
  cbn [grid_tiles] in H. apply in_app_or in H. destruct H as [H|H].
  - exact (row_tiles_size row i 0 t H).
  - exact (IH (S i) t H).
Qed.

Lemma row_tiles_length i : forall row j,
  List.length (row_tiles i j row) = List.length row.
Proof. induction row as [|c row IH]; intros j; simpl; [|rewrite IH]; reflexivity. Qed.

Lemma grid_tiles_length : forall rows i,
  List.length (grid_tiles i rows) = List.length (List.concat rows).
Proof.
  induction rows as [|r rows IH]; intros i; simpl; [reflexivity|].
  now rewrite !length_app, row_tiles_length, IH.
Qed.

(** The decimal text of a number. *)
Lemma digit_char_value r :
  r < 10 ->
  between "0" "9" (digit_char r) = true /\ code (digit_char r) - 48 = r.
Proof.
  intros H. unfold between, digit_char, code.
  rewrite nat_ascii_embedding by lia.
  change (nat_of_ascii "0") with 48. change (nat_of_ascii "9") with 57.
  split; [|lia].
  apply andb_true_iff. split; apply Nat.leb_le; lia.
Qed.

Lemma digits_value : forall fuel n acc,
  n < fuel ->
  decimal_value (digits fuel n acc) 0 = decimal_value acc n.
Proof.
  induction fuel as [|fuel IH]; intros n acc H; [lia|].
  cbn [digits].
  destruct (digit_char_value (n mod 10) ltac:(lia)) as [B V].
  destruct (Nat.eqb_spec (n / 10) 0) as [E|E].
  - cbn [decimal_value]. rewrite B, V. f_equal. lia.
  - rewrite IH by lia. cbn [decimal_value]. rewrite B, V. f_equal. lia.
Qed.

Lemma digits_head : forall fuel n acc,
  n < fuel -> 0 < n ->
  exists c rest, digits fuel n acc = String c rest /\ c <> "0"%char.
Proof.
  induction fuel as [|fuel IH]; intros n acc H P; [lia|].
  cbn [digits]. destruct (Nat.eqb_spec (n / 10) 0) as [E|E].
  - exists (digit_char (n mod 10)), acc. split; [reflexivity|].
    intros C.
    destruct (digit_char_value (n mod 10) ltac:(lia)) as [_ V].
    rewrite C in V. change (code "0" - 48) with 0 in V. lia.
  - apply IH; lia.
Qed.

Lemma of_nat_decimal n :
  decimal_value (of_nat n) 0 = Some n
  /\ (forall rest, of_nat n = String "0" rest -> n = 0).
Proof.
  unfold of_nat. split.
  - now rewrite digits_value by lia.
  - intros rest H. destruct n as [|n]; [reflexivity|].
    destruct (digits_head (S (S n)) (S n) EmptyString ltac:(lia) ltac:(lia))
      as (c & rest' & E & N).
    rewrite E in H. inversion H. contradiction.
Qed.

(** C7.  The text that [toSvgAsString] gives for a grid, written out:
    the [svg] element with width 640, height 64 times the number of
    rows and the view box of that size, then one [rect] element per
    cell, with [x = j * 64] and [y = i * 64] for the cell of row [i] and
    column [j], width 64, height 64 and the color of the cell as [fill],
    then the end tag.  Numbers appear in decimal without leading zero.
    On the grid of a sequence of colors the [k]-th color is the tile of
    row [k / 10] and column [k mod 10], and there are as many tiles as
    colors.  Without colors the text is the document of height 0
    without tiles; the text of a grid of three cells is given in
    full. *)
Theorem C7_rendered_document :
  (forall rows,
      toSvgAsString rows
      = ("<svg" ++ nl
         ++ "  width=" ++ dq ++ "640" ++ dq ++ nl
         ++ "  height=" ++ dq ++ of_nat (64 * List.length rows) ++ dq ++ nl
         ++ "  viewBox=" ++ dq ++ "0 0 640 "
         ++ of_nat (64 * List.length rows) ++ dq ++ nl
         ++ "  fill=" ++ dq ++ "none" ++ dq ++ nl
         ++ "  xmlns=" ++ dq ++ "http://www.w3.org/2000/svg" ++ dq ++ nl
         ++ ">"
         ++ join (map (fun t =>
                         "<rect x=" ++ dq ++ of_nat (tile_x t) ++ dq
                         ++ " y=" ++ dq ++ of_nat (tile_y t) ++ dq
                         ++ " width=" ++ dq ++ "64" ++ dq
                         ++ " height=" ++ dq ++ "64" ++ dq
                         ++ " fill=" ++ dq ++ tile_fill t ++ dq ++ " />")
                      (grid_tiles 0 rows))
         ++ "</svg>")%string)
  /\ (forall rows,
        toSvgAsString rows
        = serialize {| doc_width := 640;
                       doc_height := 64 * List.length rows;
                       doc_tiles := grid_tiles 0 rows |})
  /\ (forall colors,
        toSvgAsString (toTwoDimensional colors 10)
        = serialize
            {| doc_width := 640;
               doc_height := 64 * List.length (toTwoDimensional colors 10);
               doc_tiles := tiles_from 0 colors |})
  /\ (forall colors,
        List.length (tiles_from 0 colors) = List.length colors)
  /\ (forall colors k color,
        nth_error colors k = Some color ->
        nth_error (tiles_from 0 colors) k
        = Some {| tile_x := (k mod 10) * 64; tile_y := (k / 10) * 64;
                  tile_width := 64; tile_height := 64;
                  tile_fill := color |})
  /\ (forall rows i j row color,
        nth_error rows i = Some row -> nth_error row j = Some color ->
        In {| tile_x := j * 64; tile_y := i * 64;
              tile_width := 64; tile_height := 64; tile_fill := color |}
           (grid_tiles 0 rows))
  /\ (forall rows,
        List.length (grid_tiles 0 rows) = List.length (List.concat rows))
  /\ (forall n,
        decimal_value (of_nat n) 0 = Some n
        /\ (forall rest, of_nat n = String "0" rest -> n = 0))
  /\ toSvgAsString (toTwoDimensional [] 10) = empty_document_text
  /\ toSvgAsString three_tiles = three_tiles_text.
Proof.
  split.
  { intros rows. rewrite toSvgAsString_grid.
    unfold grid_document, serialize.
    cbn [doc_width doc_height doc_tiles].
    change (of_nat 640) with "640"%string.
    rewrite (map_ext_in tile_text
               (fun t =>
                  "<rect x=" ++ dq ++ of_nat (tile_x t) ++ dq
                  ++ " y=" ++ dq ++ of_nat (tile_y t) ++ dq
                  ++ " width=" ++ dq ++ "64" ++ dq
                  ++ " height=" ++ dq ++ "64" ++ dq
                  ++ " fill=" ++ dq ++ tile_fill t ++ dq ++ " />")%string);
      [reflexivity|].
    intros t Ht. destruct (grid_tiles_size rows 0 t Ht) as [W H].
    unfold tile_text. rewrite W, H. reflexivity. }
  split; [exact toSvgAsString_grid|].
  split; [|split; [|split; [|split; [|split; [|split; [|split]]]]]].
  - intros colors. rewrite toSvgAsString_grid, grid_document_of.
    unfold document_of. destruct (toTwoDimensional_rows colors) as [L _].
    now rewrite L.
  - intros colors. apply tiles_from_length.
  - intros colors k color H. unfold tiles_from.
    rewrite nth_error_map, (nth_error_indexed colors 0 k color H).
    reflexivity.
  - intros rows i j row color Hr Hc.
    apply (grid_tiles_In rows i j row color 0 Hr Hc).
  - intros rows. apply (grid_tiles_length rows 0).
  - exact of_nat_decimal.
  - reflexivity.
  - vm_compute. reflexivity.
Qed.

End SvgFacts.

(** ** The Normalizer *)

Section NormalizerFacts.

Import JSString ColorString.

Lemma all_ascii_In c : In c all_ascii.
Proof.
  unfold all_ascii. rewrite <- (ascii_nat_embedding c).
  apply in_map, in_seq. pose proof (nat_ascii_bounded c). lia.
Qed.

Lemma prints_back_all :
  forallb
    (fun a =>
       forallb (fun b => implb (is_hex a && is_hex b) (prints_back a b))
               all_ascii)
    all_ascii = true.
Proof. vm_compute. reflexivity. Qed.

Lemma hex_pair a b :
  is_hex a = true -> is_hex b = true ->
  exists n,
    channel a b = Some n
    /\ hexDouble n = String (to_lower a) (String (to_lower b) EmptyString)
    /\ n <= 255.
Proof.
  intros Ha Hb. pose proof prints_back_all as H.
  rewrite forallb_forall in H. specialize (H a (all_ascii_In a)).
  rewrite forallb_forall in H. specialize (H b (all_ascii_In b)).
  rewrite Ha, Hb in H. simpl in H. unfold prints_back in H.
  destruct (channel a b) as [n|]; [|discriminate].
  apply andb_true_iff in H. destruct H as [H1 H2].
  exists n. split; [reflexivity|]. split.
  - now apply String.eqb_eq.
  - now apply Nat.leb_le.
Qed.

Lemma hex_value_is_hex c h : hex_value c = Some h -> is_hex c = true.
Proof.
  unfold hex_value, is_hex.
  destruct (between "0" "9" c); [reflexivity|].
  destruct (between "a" "f" c); [intros _; apply orb_true_r|].
  destruct (between "A" "F" c); [reflexivity|discriminate].
Qed.

Lemma channel_range a b n : channel a b = Some n -> n <= 255.
Proof.
  intros H. unfold channel in H.
  destruct (hex_value a) as [x|] eqn:Ea; [|discriminate].
  destruct (hex_value b) as [y|] eqn:Eb; [|discriminate].
  destruct (hex_pair a b (hex_value_is_hex _ _ Ea) (hex_value_is_hex _ _ Eb))
    as (m & Hm & _ & Hle).
  unfold channel in Hm. rewrite Ea, Eb in Hm. congruence.
Qed.

Lemma parse_channel_range lexeme n : parse_channel lexeme = Some n -> n <= 255.
Proof.
  unfold parse_channel.
  destruct (match trim lexeme with String "+" s => s | s => s end);
    [discriminate|].
  destruct (decimal _ 0) as [m|]; [|discriminate].
  destruct (Nat.leb_spec m 255) as [Hle|_]; [|discriminate].
  intros E. inversion E. now subst.
Qed.

Lemma rgb_range r g b a color :
  (forall n, r = Some n -> n <= 255) ->
  (forall n, g = Some n -> n <= 255) ->
  (forall n, b = Some n -> n <= 255) ->
  rgb r g b a = Some color -> in_range color.
Proof.
  intros Hr Hg Hb H. unfold rgb in H.
  destruct r as [x|]; [|discriminate].
  destruct g as [y|]; [|discriminate].
  destruct b as [z|]; [|discriminate].
  inversion H. unfold in_range. simpl. auto.
Qed.

Lemma get_hex_range token color : get_hex token = Some color -> in_range color.
Proof.
  unfold get_hex. destruct token as [|h digits]; [discriminate|].
  destruct (Ascii.eqb h "#"); [|discriminate].
  destruct digits as [|a [|b [|c [|d [|e [|f [|x t]]]]]]]; try discriminate;
    intros H; eapply rgb_range; try exact H; apply channel_range.
Qed.

Lemma get_rgb_range token color : get_rgb token = Some color -> in_range color.
Proof.
  unfold get_rgb.
  destruct (match strip_prefix "rgba(" token with
            | Some rest => Some rest
            | None => strip_prefix "rgb(" token
            end) as [rest|]; [|discriminate].
  destruct (fields "," ")" rest EmptyString) as [[|r [|g [|b [|a [|x l]]]]]|];
    try discriminate;
    try destruct (parse_alpha (trim a)); try discriminate;
    intros H; eapply rgb_range; try exact H; apply parse_channel_range.
Qed.

Lemma get_range token color : get token = Some color -> in_range color.
Proof.
  unfold get. destruct (get_hex token) as [c|] eqn:E.
  - intros H. inversion H. subst c. now apply (get_hex_range token).
  - apply get_rgb_range.
Qed.

Lemma hexDouble_canonical_all :
  forallb (fun n => all_chars is_canonical_digit (hexDouble n)
                    && Nat.eqb (String.length (hexDouble n)) 2)
          (seq 0 256) = true.
Proof. vm_compute. reflexivity. Qed.

Lemma hexDouble_canonical n :
  n <= 255 ->
  exists x y,
    hexDouble n = String x (String y EmptyString)
    /\ is_canonical_digit x = true /\ is_canonical_digit y = true.
Proof.
  intros H. pose proof hexDouble_canonical_all as A.
  rewrite forallb_forall in A. specialize (A n).
  rewrite in_seq in A. specialize (A ltac:(lia)).
  apply andb_true_iff in A. destruct A as [A _].
  unfold hexDouble in *. simpl in A.
  apply andb_true_iff in A. destruct A as [A1 A2].
  apply andb_true_iff in A2. destruct A2 as [A2 _].
  eauto.
Qed.

Lemma alpha_byte_range lexeme byte :
  alpha_byte lexeme = Some byte -> byte <= 255.
Proof.
  unfold alpha_byte.
  destruct (parse_alpha lexeme) as [[[negative n] d]|]; [|discriminate].
  destruct negative; [intros H; inversion H; lia|].
  destruct (Nat.leb_spec (10 ^ d) n) as [_|L]; [discriminate|].
  intros H. inversion H. clear H. revert L. generalize (10 ^ d). intros D L.
  apply Nat.lt_succ_r. apply Nat.Div0.div_lt_upper_bound. lia.
Qed.


(** The text of a color: six digits, or eight when there is an alpha
    byte. *)
Lemma to_hex_shape color :
  in_range color ->
  (alpha_suffix color = EmptyString /\ canonical (to_hex color) = true)
  \/ (exists byte,
        alpha_suffix color = hexDouble byte
        /\ canonical_alpha (to_hex color) = true).
Proof.
  intros (Hr & Hg & Hb).
  destruct (hexDouble_canonical _ Hr) as (r1 & r2 & Er & R1 & R2).
  destruct (hexDouble_canonical _ Hg) as (g1 & g2 & Eg & G1 & G2).
  destruct (hexDouble_canonical _ Hb) as (b1 & b2 & Eb & B1 & B2).
  unfold to_hex. rewrite Er, Eg, Eb. unfold alpha_suffix.
  destruct (alpha color) as [lexeme|].
  - destruct (alpha_byte lexeme) as [byte|] eqn:A.
    + right. exists byte. split; [reflexivity|].
      destruct (hexDouble_canonical _ (alpha_byte_range _ _ A))
        as (a1 & a2 & Ea & A1 & A2).
      rewrite Ea. simpl. now rewrite R1, R2, G1, G2, B1, B2, A1, A2.
    + left. split; [reflexivity|].
      simpl. now rewrite R1, R2, G1, G2, B1, B2.
  - left. split; [reflexivity|].
    simpl. now rewrite R1, R2, G1, G2, B1, B2.
Qed.





Lemma normalize_shape token out :
  normalize token = Some out ->
  canonical out = true \/ canonical_alpha out = true.
Proof.
  unfold normalize. intros H.
  destruct (get token) as [color|] eqn:E; [|discriminate].
  inversion H.
  destruct (to_hex_shape color (get_range token color E))
    as [[_ C]|(byte & _ & C)]; auto.
Qed.



Lemma normalize_hex6 a b c d e f :
  is_hex a = true -> is_hex b = true -> is_hex c = true ->
  is_hex d = true -> is_hex e = true -> is_hex f = true ->
  normalize (hex6 a b c d e f)
  = Some (hex6 (to_lower a) (to_lower b) (to_lower c)
               (to_lower d) (to_lower e) (to_lower f)).
Proof.
  intros Ha Hb Hc Hd He Hf.
  destruct (hex_pair a b Ha Hb) as (n1 & E1 & P1 & _).
  destruct (hex_pair c d Hc Hd) as (n2 & E2 & P2 & _).
  destruct (hex_pair e f He Hf) as (n3 & E3 & P3 & _).
  unfold normalize, get, hex6, get_hex.
  change (Ascii.eqb "#" "#") with true. cbv iota.
  rewrite E1, E2, E3. simpl. unfold to_hex, alpha_suffix. simpl red.
  simpl green. simpl blue. simpl alpha. now rewrite P1, P2, P3.
Qed.

Lemma case_folding_all :
  forallb
    (fun a =>
       Ascii.eqb (to_lower (to_upper a)) (to_lower a)
       && Ascii.eqb (to_lower (to_lower a)) (to_lower a)
       && Bool.eqb (is_hex (to_upper a)) (is_hex a)
       && Bool.eqb (is_hex (to_lower a)) (is_hex a))
    all_ascii = true.
Proof. vm_compute. reflexivity. Qed.

Lemma case_folding a :
  to_lower (to_upper a) = to_lower a
  /\ to_lower (to_lower a) = to_lower a
  /\ is_hex (to_upper a) = is_hex a
  /\ is_hex (to_lower a) = is_hex a.
Proof.
  pose proof case_folding_all as H. rewrite forallb_forall in H.
  specialize (H a (all_ascii_In a)).
  repeat (apply andb_true_iff in H; destruct H as [H ?]).
  repeat split;
    try (now apply Ascii.eqb_eq); now apply Bool.eqb_prop.
Qed.

Lemma is_hex_in_class_all :
  forallb (fun a => implb (is_hex a) (in_class true hexdigit a)) all_ascii
  = true.
Proof. vm_compute. reflexivity. Qed.

Lemma is_hex_in_class a : is_hex a = true -> in_class true hexdigit a = true.
Proof.
  intros H. pose proof is_hex_in_class_all as A.
  rewrite forallb_forall in A. specialize (A a (all_ascii_In a)).
  now rewrite H in A.
Qed.

Lemma match_hex6 a b c d e f :
  is_hex a = true -> is_hex b = true -> is_hex c = true ->
  is_hex d = true -> is_hex e = true -> is_hex f = true ->
  match_colors (hex6 a b c d e f) = Some [hex6 a b c d e f].
Proof.
  intros Ha Hb Hc Hd He Hf.
  apply is_hex_in_class in Ha, Hb, Hc, Hd, He, Hf.
  unfold match_colors, match_g, hex6, colorReg, hexReg.
  cbn -[in_class rgbReg hexdigit].
  change (in_class true [("#"%char, "#"%char)] "#"%char) with true.
  cbn -[in_class rgbReg hexdigit].
  rewrite Ha, Hb, Hc, Hd, He, Hf.
  cbn -[in_class rgbReg hexdigit].
  reflexivity.
Qed.

Lemma match_hex3 a b c :
  is_hex a = true -> is_hex b = true -> is_hex c = true ->
  match_colors (hex3 a b c) = Some [hex3 a b c].
Proof.
  intros Ha Hb Hc.
  apply is_hex_in_class in Ha, Hb, Hc.
  unfold match_colors, match_g, hex3, colorReg, hexReg.
  cbn -[in_class rgbReg hexdigit].
  change (in_class true [("#"%char, "#"%char)] "#"%char) with true.
  cbn -[in_class rgbReg hexdigit].
  rewrite Ha, Hb, Hc.
  cbn -[in_class rgbReg hexdigit].
  reflexivity.
Qed.

End NormalizerFacts.

(** ** Claims about the Normalizer *)

Section NormalizerClaims.

Import JSString ColorString.


(** C6.  A hex token of six digits normalizes to its digits in lower
    case, and one of three digits to each of its digits twice, in lower
    case: the canonical form is the same for the short and the long
    spelling of a color and for every choice of letter case.  Such
    tokens are what the pattern of the walker matches when they are the
    whole value of a declaration. *)
Theorem C6_hex_spellings_agree a b c d e f :
  is_hex a = true -> is_hex b = true -> is_hex c = true ->
  is_hex d = true -> is_hex e = true -> is_hex f = true ->
  normalize (hex6 a b c d e f)
  = Some (hex6 (to_lower a) (to_lower b) (to_lower c)
               (to_lower d) (to_lower e) (to_lower f))
  /\ normalize (hex3 a b c)
     = Some (hex6 (to_lower a) (to_lower a) (to_lower b)
                  (to_lower b) (to_lower c) (to_lower c))
  /\ normalize (hex3 a b c) = normalize (hex6 a a b b c c)
  /\ normalize (hex6 (to_upper a) (to_upper b) (to_upper c)
                     (to_upper d) (to_upper e) (to_upper f))
     = normalize (hex6 a b c d e f)
  /\ normalize (hex6 (to_lower a) (to_lower b) (to_lower c)
                     (to_lower d) (to_lower e) (to_lower f))
     = normalize (hex6 a b c d e f)
  /\ normalize (hex3 (to_upper a) (to_upper b) (to_upper c))
     = normalize (hex3 (to_lower a) (to_lower b) (to_lower c))
  /\ canonical (hex6 (to_lower a) (to_lower b) (to_lower c)
                     (to_lower d) (to_lower e) (to_lower f)) = true
  /\ match_colors (hex6 a b c d e f) = Some [hex6 a b c d e f]
  /\ match_colors (hex3 a b c) = Some [hex3 a b c].
Proof.
  intros Ha Hb Hc Hd He Hf.
  destruct (case_folding a) as (Ua & La & HUa & HLa).
  destruct (case_folding b) as (Ub & Lb & HUb & HLb).
  destruct (case_folding c) as (Uc & Lc & HUc & HLc).
  destruct (case_folding d) as (Ud & Ld & HUd & HLd).
  destruct (case_folding e) as (Ue & Le & HUe & HLe).
  destruct (case_folding f) as (Uf & Lf & HUf & HLf).
  assert (H6 := normalize_hex6 a b c d e f Ha Hb Hc Hd He Hf).
  assert (H3 : normalize (hex3 a b c) = normalize (hex6 a a b b c c))
    by reflexivity.
  split; [exact H6|]. split.
  { rewrite H3. now apply normalize_hex6. }
  split; [exact H3|]. split.
  { rewrite H6, normalize_hex6 by congruence.
    now rewrite Ua, Ub, Uc, Ud, Ue, Uf. }
  split.
  { rewrite H6, normalize_hex6 by congruence.
    now rewrite La, Lb, Lc, Ld, Le, Lf. }
  split.
  { change (normalize (hex3 (to_upper a) (to_upper b) (to_upper c)))
      with (normalize (hex6 (to_upper a) (to_upper a) (to_upper b)
                            (to_upper b) (to_upper c) (to_upper c))).
    change (normalize (hex3 (to_lower a) (to_lower b) (to_lower c)))
      with (normalize (hex6 (to_lower a) (to_lower a) (to_lower b)
                            (to_lower b) (to_lower c) (to_lower c))).
    rewrite !normalize_hex6 by congruence.
    now rewrite Ua, Ub, Uc, La, Lb, Lc. }
  assert (E : normalize (hex6 a b c d e f) = Some
                (hex6 (to_lower a) (to_lower b) (to_lower c)
                      (to_lower d) (to_lower e) (to_lower f))) by exact H6.
  split.
  { destruct (normalize_shape _ _ E) as [C|C]; [exact C|].
    unfold canonical_alpha, hex6 in C. simpl in C. discriminate. }
  split; [now apply match_hex6|now apply match_hex3].
Qed.

End NormalizerClaims.

(** ** The claims on the small world *)

Section Instances.

Import Async Pipeline Grid Svg.

Local Abbreviation world_handler :=
  (handler Fixture.new_URL Fixture.fetch Fixture.Open_buffer Fixture.parse
           ColorString.Color ColorString.get ColorString.to_hex).
Local Abbreviation world_main :=
  (main Fixture.fetch Fixture.Open_buffer Fixture.parse
        ColorString.Color ColorString.get ColorString.to_hex).



Lemma C3_witness :
  Fixture.fetch (archive_url Fixture.options_main) = inr "zip:main"
  /\ Fixture.Open_buffer "zip:main"
     = inr [Fixture.a_css; Fixture.readme; Fixture.b_css]
  /\ fst (run (world_main Fixture.options_main))
     = inr (toSvgAsString
              (toTwoDimensional ["#ffffff"; "#000000"; "#abcdef"] 10)).
Proof.
  split; [reflexivity|]. split; [reflexivity|].
  exact (proj1 (proj2
           (C3_first_seen_order
              Fixture.fetch Fixture.Open_buffer Fixture.parse
              ColorString.Color ColorString.get ColorString.to_hex
              Fixture.options_main "zip:main"
              [Fixture.a_css; Fixture.readme; Fixture.b_css]
              eq_refl eq_refl eq_refl))).
Defined.

Lemma C4_witness :
  List.length Fixture.twelve mod 10 <> 0
  /\ List.length (last (toTwoDimensional Fixture.twelve 10) []) = 2.
Proof.
  assert (H : List.length Fixture.twelve mod 10 <> 0)
    by (vm_compute; discriminate).
  split; [exact H|].
  exact (proj1 (proj2 (proj2 (C4_grid_partition Fixture.twelve))) H).
Defined.

Lemma C5_witness :
  under_rules (Declaration "color" "#ff0000") Fixture.nested
  /\ In "#ff0000"
        (recursion ColorString.Color ColorString.get ColorString.to_hex
                   Fixture.nested).
Proof.
  assert (U : under_rules (Declaration "color" "#ff0000") Fixture.nested).
  { eapply under_rule; [left; reflexivity|].
    eapply under_rule; [left; reflexivity|].
    apply under_here. left. reflexivity. }
  split; [exact U|].
  apply (C5_nested_rules_are_walked
           ColorString.Color ColorString.get ColorString.to_hex
           Fixture.nested "color" "#ff0000" "#ff0000" U).
  left. reflexivity.
Defined.

Lemma C6_witness :
  ColorString.normalize "#AbCdEf" = Some "#abcdef"
  /\ ColorString.normalize "#AbC" = Some "#aabbcc".
Proof.
  pose proof (C6_hex_spellings_agree "A" "b" "C" "d" "E" "f"
                eq_refl eq_refl eq_refl eq_refl eq_refl eq_refl) as H.
  split; [exact (proj1 H)|exact (proj1 (proj2 H))].
Defined.

Lemma C7_witness :
  nth_error three_tiles 1 = Some ["#abcdef"]
  /\ nth_error ["#abcdef"] 0 = Some "#abcdef"
  /\ In {| tile_x := 0; tile_y := 64; tile_width := 64; tile_height := 64;
           tile_fill := "#abcdef" |}
        (grid_tiles 0 three_tiles)
  /\ nth_error ["#ffffff"; "#000000"] 1 = Some "#000000"
  /\ nth_error (tiles_from 0 ["#ffffff"; "#000000"]) 1
     = Some {| tile_x := 64; tile_y := 0; tile_width := 64;
               tile_height := 64; tile_fill := "#000000" |}.
Proof.
  destruct C7_rendered_document
    as (_ & _ & _ & _ & Hnth & Hcell & _).
  split; [reflexivity|]. split; [reflexivity|].
  split; [exact (Hcell three_tiles 1 0 ["#abcdef"] "#abcdef" eq_refl eq_refl)|].
  split; [reflexivity|].
  exact (Hnth ["#ffffff"; "#000000"] 1 "#000000" eq_refl).
Defined.

Lemma C8_witness :
  getSearchParams Fixture.new_URL Fixture.url_broken
  = inr (Some Fixture.options_broken)
  /\ forallb (readable Fixture.parse) [Fixture.a_css; Fixture.bad_css] = false
  /\ exists tr,
       run (world_handler Fixture.url_broken) = (inr server_error, tr)
       /\ statusCode server_error = 500
       /\ body server_error = None.
Proof.
  split; [reflexivity|]. split; [reflexivity|].
  apply (C8_failure_is_500_without_body
           Fixture.new_URL Fixture.fetch Fixture.Open_buffer Fixture.parse
           ColorString.Color ColorString.get ColorString.to_hex
           Fixture.url_broken Fixture.options_broken eq_refl).
  right. right. exists "zip:broken", [Fixture.a_css; Fixture.bad_css].
  repeat split; reflexivity.
Defined.

Lemma C9_witness :
  Fixture.new_URL Fixture.url_no_branch = inr [("repo", "r"); ("owner", "o")]
  /\ has [("repo", "r"); ("owner", "o")] "branch" = false
  /\ run (world_handler Fixture.url_no_branch) = (inr bad_request, []).
Proof.
  split; [reflexivity|]. split; [reflexivity|].
  apply (C9_missing_parameter_is_400
           Fixture.new_URL Fixture.fetch Fixture.Open_buffer Fixture.parse
           ColorString.Color ColorString.get ColorString.to_hex
           Fixture.url_no_branch [("repo", "r"); ("owner", "o")] eq_refl).
  right. right. reflexivity.
Defined.

(** The request for the branch [main] is answered with the document of
    the three colors of its two stylesheets. *)
Example handler_main :
  fst (run (world_handler Fixture.url_all))
  = inr {| statusCode := 200;
           body := Some (toSvgAsString
                           (toTwoDimensional
                              ["#ffffff"; "#000000"; "#abcdef"] 10));
           headers_field := Some HEADERS |}.
Proof. reflexivity. Qed.

(** A value that holds a color among other words gives nothing, and so
    does a gradient of two hex colors. *)
Example walker_border_and_gradient :
  recursion ColorString.Color ColorString.get ColorString.to_hex
    [Rule "a" [Declaration "border" "1px solid #fff";
               Declaration "background" "linear-gradient(#fff, #000)"]]
  = [].
Proof. reflexivity. Qed.

End Instances.


(** * Further properties of the code *)

(** ** The walker *)

Section WalkerMore.

Variable Color : Type.
Variable cs_get : string -> option Color.
Variable cs_to_hex : Color -> string.

Local Abbreviation recursion := (recursion Color cs_get cs_to_hex).
Local Abbreviation emitted := (emitted Color cs_get cs_to_hex).
Local Abbreviation emitted_all := (emitted_all Color cs_get cs_to_hex).
Local Abbreviation value_colors := (value_colors Color cs_get cs_to_hex).

Lemma flat_map_twice {A B C : Type} (f : B -> list C) (g : A -> list B) l :
  flat_map f (flat_map g l) = flat_map (fun x => flat_map f (g x)) l.
Proof.
  induction l as [|x l IH]; simpl; [reflexivity|].
  now rewrite flat_map_app, IH.
Qed.

Lemma emitted_values n : emitted n = flat_map value_colors (decl_values n).
Proof.
  induction n as [sel ns IH|name params ns _|prop value|text]
    using ChildNode_nested_ind; simpl; try reflexivity.
  - rewrite flat_map_twice.
    induction IH as [|n ns Hn _ IHns]; simpl; [reflexivity|].
    now rewrite Hn, IHns.
  - now rewrite app_nil_r.
Qed.

Lemma emitted_all_values nodes :
  emitted_all nodes = flat_map value_colors (decl_values_all nodes).
Proof.
  unfold Walker.emitted_all, decl_values_all. rewrite flat_map_twice.
  apply flat_map_ext. apply emitted_values.
Qed.

Lemma recursion_values nodes :
  recursion nodes
  = first_seen (flat_map value_colors (decl_values_all nodes)).
Proof. now rewrite recursion_spec, emitted_all_values. Qed.

(** X1.  The set of the walker is a function of the declaration values
    of the tree, read depth first through rule nodes: selectors,
    property names, comments, at-rules and the nesting of the rules take
    no part in it. *)
Theorem X1_walker_reads_values_only nodes1 nodes2 :
  decl_values_all nodes1 = decl_values_all nodes2 ->
  recursion nodes1 = recursion nodes2.
Proof. intros H. now rewrite !recursion_values, H. Qed.

Lemma has_first_seen c l : JSSet.has c (first_seen l) = JSSet.has c l.
Proof.
  apply eq_true_iff_eq. rewrite !has_true_iff. apply first_seen_In.
Qed.

Lemma recursion_app l1 l2 :
  recursion (l1 ++ l2) = JSSet.add_all (recursion l2) (recursion l1).
Proof.
  rewrite !recursion_spec. unfold Walker.emitted_all.
  rewrite flat_map_app, add_all_first_seen, add_all_spec, first_seen_app.
  f_equal. rewrite first_seen_filter. apply filter_ext.
  intros c. now rewrite has_first_seen.
Qed.

(** X2.  Walking two sequences of nodes one after the other gives the
    set of the first followed by the colors of the second that the
    first does not have; a rule around a sequence of nodes changes
    nothing. *)
Theorem X2_walker_composes :
  (forall l1 l2,
      recursion (l1 ++ l2)
      = recursion l1
        ++ filter (fun c => negb (JSSet.has c (recursion l1))) (recursion l2))
  /\ (forall l1 l2 c,
        In c (recursion (l1 ++ l2))
        <-> In c (recursion l1) \/ In c (recursion l2))
  /\ (forall sel nodes, recursion [Rule sel nodes] = recursion nodes).
Proof.
  split; [|split].
  - intros l1 l2. rewrite recursion_app, add_all_spec. f_equal.
    rewrite first_seen_filter. f_equal.
    rewrite recursion_spec. apply first_seen_idem.
  - intros l1 l2 c. rewrite !recursion_In. unfold Walker.emitted_all.
    rewrite flat_map_app. apply in_app_iff.
  - intros sel nodes. rewrite !recursion_spec. f_equal.
    unfold Walker.emitted_all. simpl. apply app_nil_r.
Qed.

Lemma value_colors_length value : List.length (value_colors value) <= 1.
Proof.
  unfold Walker.value_colors.
  destruct (match_colors_at_most_one value)
    as [H|(before & matched & _ & H)]; rewrite H; simpl; [lia|].
  destruct (cs_get matched); simpl; lia.
Qed.

Lemma flat_map_length_le {A B : Type} (f : A -> list B) l :
  (forall x, List.length (f x) <= 1) ->
  List.length (flat_map f l) <= List.length l.
Proof.
  intros H. induction l as [|x l IH]; simpl; [lia|].
  rewrite length_app. specialize (H x). lia.
Qed.

Lemma first_seen_length l : List.length (first_seen l) <= List.length l.
Proof.
  induction l as [|x l IH]; simpl; [lia|].
  pose proof (filter_length_le (fun y => negb (String.eqb x y)) (first_seen l)).
  lia.
Qed.

(** X3.  A declaration gives at most one color: the set of the walker
    has no more members than the tree has declarations below rule
    nodes, and it has no repetition. *)
Theorem X3_one_color_per_declaration nodes :
  List.length (recursion nodes) <= List.length (decl_values_all nodes)
  /\ NoDup (recursion nodes).
Proof.
  rewrite recursion_values. split; [|apply first_seen_NoDup].
  etransitivity; [apply first_seen_length|].
  apply flat_map_length_le. apply value_colors_length.
Qed.

End WalkerMore.

Lemma X1_witness :
  decl_values_all
    [Rule "a" [Declaration "color" "#fff"; Comment "note";
               Rule "b" [Declaration "background" "rgb(0,0,0)"]]]
  = decl_values_all
      [Rule "x y" [Declaration "border-color" "#fff"];
       AtRule "media" "print" [Declaration "color" "#123"];
       Rule "z" [Declaration "fill" "rgb(0,0,0)"]]
  /\ recursion ColorString.Color ColorString.get ColorString.to_hex
       [Rule "a" [Declaration "color" "#fff"; Comment "note";
                  Rule "b" [Declaration "background" "rgb(0,0,0)"]]]
     = recursion ColorString.Color ColorString.get ColorString.to_hex
         [Rule "x y" [Declaration "border-color" "#fff"];
          AtRule "media" "print" [Declaration "color" "#123"];
          Rule "z" [Declaration "fill" "rgb(0,0,0)"]].
Proof.
  split; [reflexivity|].
  apply (X1_walker_reads_values_only
           ColorString.Color ColorString.get ColorString.to_hex).
  reflexivity.
Defined.

(** ** The color pattern *)

Section PatternMore.

Import JSString ColorString.

Lemma star_suffix p : forall s i k e,
  star p i s k = Some e ->
  exists j t pre, k j t = Some e /\ s = (pre ++ t)%string.
Proof.
  induction s as [|c s IH]; intros i k e H; simpl in H.
  - now exists i, EmptyString, EmptyString.
  - destruct (p c).
    + destruct (star p (S i) s k) as [e'|] eqn:E.
      * inversion H; subst e'. destruct (IH _ _ _ E) as (j & t & pre & Hk & Hs).
        exists j, t, (String c pre). split; [assumption|]. simpl. now rewrite Hs.
      * now exists i, (String c s), EmptyString.
    + now exists i, (String c s), EmptyString.
Qed.

Lemma run_suffix icase r : forall i s k e,
  run icase r i s k = Some e ->
  exists j t pre, k j t = Some e /\ s = (pre ++ t)%string.
Proof.
  induction r as [cl| | |r1 IH1 r2 IH2|r1 IH1 r2 IH2|r IH|cl];
    intros i s k e H; simpl in H.
  - destruct s as [|c s]; [discriminate|].
    destruct (in_class icase cl c); [|discriminate].
    exists (S i), s, (String c EmptyString). now split.
  - destruct (Nat.eqb i 0); [|discriminate]. now exists i, s, EmptyString.
  - destruct s; [|discriminate]. now exists i, EmptyString, EmptyString.
  - destruct (IH1 _ _ _ _ H) as (j & t & pre & Hk & Hs).
    destruct (IH2 _ _ _ _ Hk) as (j' & t' & pre' & Hk' & Hs').
    exists j', t', (pre ++ pre')%string. split; [assumption|].
    now rewrite Hs, Hs', append_assoc.
  - destruct (run icase r1 i s k) as [e'|] eqn:E.
    + inversion H; subst e'. eauto.
    + eauto.
  - destruct (run icase r i s k) as [e'|] eqn:E.
    + inversion H; subst e'. eauto.
    + now exists i, s, EmptyString.
  - eapply star_suffix; eassumption.
Qed.

Lemma run_seqs_suffix icase rs last : forall i s k e,
  run icase (seqs rs last) i s k = Some e ->
  exists j t pre, run icase last j t k = Some e /\ s = (pre ++ t)%string.
Proof.
  induction rs as [|r rs IH]; intros i s k e H.
  - now exists i, s, EmptyString.
  - cbn [seqs run] in H.
    destruct (run_suffix _ _ _ _ _ _ H) as (j & t & pre & Hk & Hs).
    destruct (IH _ _ _ _ Hk) as (j' & t' & pre' & Hk' & Hs').
    exists j', t', (pre ++ pre')%string. split; [assumption|].
    now rewrite Hs, Hs', append_assoc.
Qed.

Lemma prefix_all s : prefix (String.length s) s = s.
Proof.
  unfold prefix. induction s as [|a t IHt]; simpl; [reflexivity|].
  now rewrite IHt.
Qed.

Lemma scan_anchored_exec icase r :
  anchored r = true ->
  (forall i, exec_at icase r i EmptyString = None) ->
  forall s i,
    scan icase r 0 i s = []
    \/ exists before matched e,
         s = (before ++ matched)%string
         /\ scan icase r 0 i s = [matched]
         /\ exec_at icase r (i + String.length before) matched = Some e.
Proof.
  intros A N. induction s as [|c s IH]; intros i.
  - left. simpl. now rewrite N.
  - destruct (scan_anchored icase r A N (String c s) i)
      as [H|(before0 & matched0 & Hs0 & H0)]; [now left|].
    right. cbn [scan] in H0 |- *.
    destruct (exec_at icase r i (String c s)) as [e|] eqn:E.
    + exists EmptyString, (String c s), e. simpl. rewrite Nat.add_0_r.
      pose proof (exec_anchored icase r i (String c s) e A E) as Ee.
      inversion H0 as [[Hp Hrest]]. rewrite Hrest.
      split; [reflexivity|]. split; [|exact E].
      f_equal. rewrite Ee.
      replace (i + String.length (String c s) - i)
        with (String.length (String c s)) by lia.
      apply prefix_all.
    + destruct (IH (S i)) as [H|(before & matched & e & Hs & H & He)].
      * rewrite H in H0. discriminate.
      * exists (String c before), matched, e.
        split; [simpl; now rewrite <- Hs|]. split; [exact H|].
        cbn [String.length].
        replace (i + S (String.length before))
          with (S i + String.length before) by lia.
        exact He.
Qed.

Lemma pattern_chars_all :
  forallb
    (fun c =>
       implb (in_class true [("#", "#")]%char c) (Ascii.eqb c "#")
       && implb (in_class true [(")", ")")]%char c) (Ascii.eqb c ")")
       && implb (in_class true [("r", "r")]%char c) (Ascii.eqb (to_lower c) "r")
       && implb (in_class true [("g", "g")]%char c) (Ascii.eqb (to_lower c) "g")
       && implb (in_class true [("b", "b")]%char c) (Ascii.eqb (to_lower c) "b")
       && implb (in_class true hexdigit c) (is_hex c))
    all_ascii = true.
Proof. vm_compute. reflexivity. Qed.

Lemma pattern_chars c :
  (in_class true [("#", "#")]%char c = true -> c = "#"%char)
  /\ (in_class true [(")", ")")]%char c = true -> c = ")"%char)
  /\ (in_class true [("r", "r")]%char c = true -> to_lower c = "r"%char)
  /\ (in_class true [("g", "g")]%char c = true -> to_lower c = "g"%char)
  /\ (in_class true [("b", "b")]%char c = true -> to_lower c = "b"%char)
  /\ (in_class true hexdigit c = true -> is_hex c = true).
Proof.
  pose proof pattern_chars_all as H. rewrite forallb_forall in H.
  specialize (H c (all_ascii_In c)).
  repeat (apply andb_true_iff in H; destruct H as [H ?]).
  repeat split; intros E;
    match goal with
    | I : implb ?x _ = true |- _ =>
        match type of E with x = true => rewrite E in I; simpl in I end
    end; try (now apply Ascii.eqb_eq); assumption.
Qed.

Lemma hexReg_shape j m e :
  run true hexReg j m (fun j _ => Some j) = Some e ->
  j = 0
  /\ ((exists a b c,
         m = hex3 a b c
         /\ is_hex a = true /\ is_hex b = true /\ is_hex c = true)
      \/ (exists a b c d e' f,
            m = hex6 a b c d e' f
            /\ is_hex a = true /\ is_hex b = true /\ is_hex c = true
            /\ is_hex d = true /\ is_hex e' = true /\ is_hex f = true)).
Proof.
  unfold hexReg. cbn [seqs run chr]. intros H.
  destruct (Nat.eqb_spec j 0) as [->|_]; [|discriminate].
  split; [reflexivity|].
  destruct m as [|c0 m]; [discriminate|].
  destruct (in_class true [("#", "#")]%char c0) eqn:E0; [|discriminate].
  apply (proj1 (pattern_chars c0)) in E0. subst c0.
  destruct m as [|a m]; [discriminate|].
  destruct (in_class true hexdigit a) eqn:Ea; [|discriminate].
  destruct m as [|b m]; [discriminate|].
  destruct (in_class true hexdigit b) eqn:Eb; [|discriminate].
  destruct m as [|c m]; [discriminate|].
  destruct (in_class true hexdigit c) eqn:Ec; [|discriminate].
  apply pattern_chars in Ea, Eb, Ec.
  destruct m as [|d m].
  { left. exists a, b, c. now repeat split. }
  destruct (in_class true hexdigit d) eqn:Ed; [|discriminate].
  destruct m as [|e1 m]; [discriminate|].
  destruct (in_class true hexdigit e1) eqn:Ee; [|discriminate].
  destruct m as [|f m]; [discriminate|].
  destruct (in_class true hexdigit f) eqn:Ef; [|discriminate].
  destruct m as [|x m]; [|discriminate].
  apply pattern_chars in Ed, Ee, Ef.
  right. exists a, b, c, d, e1, f. now repeat split.
Qed.

Lemma rgbReg_shape j m e :
  run true rgbReg j m (fun j _ => Some j) = Some e ->
  (exists c1 c2 c3 tail,
     m = String c1 (String c2 (String c3 tail))
     /\ to_lower c1 = "r"%char /\ to_lower c2 = "g"%char
     /\ to_lower c3 = "b"%char)
  /\ exists body, m = (body ++ ")")%string.
Proof.
  intros H. split.
  - unfold rgbReg in H. cbn [seqs run chr] in H.
    destruct m as [|c1 m]; [discriminate|].
    destruct (in_class true [("r", "r")]%char c1) eqn:E1; [|discriminate].
    destruct m as [|c2 m]; [discriminate|].
    destruct (in_class true [("g", "g")]%char c2) eqn:E2; [|discriminate].
    destruct m as [|c3 m]; [discriminate|].
    destruct (in_class true [("b", "b")]%char c3) eqn:E3; [|discriminate].
    apply pattern_chars in E1, E2, E3.
    exists c1, c2, c3, m. now repeat split.
  - change rgbReg with (seqs rgb_prefix (Seq (chr ")") Eol)) in H.
    destruct (run_seqs_suffix _ _ _ _ _ _ _ H) as (j' & t & pre & Hk & Hs).
    cbn [run chr] in Hk.
    destruct t as [|c t]; [discriminate|].
    destruct (in_class true [(")", ")")]%char c) eqn:E; [|discriminate].
    destruct t; [|discriminate].
    apply pattern_chars in E. subst c. now exists pre.
Qed.

(** X4.  What a declaration value can give.  When the search finds
    something, it is one token that ends the value, and either the
    token is the whole value, [#] and three or six hex digits, or it
    begins with the letters r, g, b in either case and ends with a
    closing parenthesis. *)
Theorem X4_shape_of_a_match value matchedArr :
  match_colors value = Some matchedArr ->
  exists before matched,
    value = (before ++ matched)%string
    /\ matchedArr = [matched]
    /\ ((before = EmptyString
         /\ ((exists a b c,
                 matched = hex3 a b c
                 /\ is_hex a = true /\ is_hex b = true /\ is_hex c = true)
             \/ (exists a b c d e f,
                   matched = hex6 a b c d e f
                   /\ is_hex a = true /\ is_hex b = true /\ is_hex c = true
                   /\ is_hex d = true /\ is_hex e = true
                   /\ is_hex f = true)))
        \/ ((exists c1 c2 c3 tail,
               matched = String c1 (String c2 (String c3 tail))
               /\ to_lower c1 = "r"%char /\ to_lower c2 = "g"%char
               /\ to_lower c3 = "b"%char)
            /\ exists body, matched = (body ++ ")")%string)).
Proof.
  unfold match_colors, match_g. intros H.
  destruct (scan_anchored_exec true colorReg eq_refl colorReg_not_empty value 0)
    as [E|(before & matched & e & Hs & E & He)]; rewrite E in H;
    [discriminate|].
  inversion H; subst matchedArr. exists before, matched.
  split; [exact Hs|]. split; [reflexivity|].
  unfold exec_at, colorReg in He. cbn [run] in He.
  destruct (run true hexReg (0 + String.length before) matched
              (fun j _ => Some j)) as [e'|] eqn:Hx.
  - left. destruct (hexReg_shape _ _ _ Hx) as [Hj Hshape].
    split; [|exact Hshape].
    destruct before; [reflexivity|simpl in Hj; discriminate].
  - right. exact (rgbReg_shape _ _ _ He).
Qed.

End PatternMore.

Lemma X4_witness :
  match_colors "1px solid rgb(1,2,3)" = Some ["rgb(1,2,3)"]
  /\ exists before matched,
       "1px solid rgb(1,2,3)" = (before ++ matched)%string
       /\ ["rgb(1,2,3)"] = [matched].
Proof.
  split; [reflexivity|].
  destruct (X4_shape_of_a_match "1px solid rgb(1,2,3)" ["rgb(1,2,3)"] eq_refl)
    as (before & matched & Hs & Hm & _).
  exists before, matched. split; assumption.
Defined.

(** ** The stylesheet test *)

Section StylesheetTest.

Lemma chr_exact c x : in_class false [(c, c)] x = true <-> x = c.
Proof.
  unfold in_class, in_ranges, JSString.between, JSString.code. simpl.
  rewrite orb_false_r, andb_true_iff, !Nat.leb_le. split.
  - intros [H1 H2].
    assert (H : nat_of_ascii x = nat_of_ascii c) by lia.
    rewrite <- (ascii_nat_embedding x), H. apply ascii_nat_embedding.
  - intros ->. lia.
Qed.

Lemma exec_css i s :
  exec_at false cssLangReg i s <> None
  <-> exists after,
        s = (".css" ++ after)%string
        /\ (after = EmptyString \/ exists rest, after = String "?" rest).
Proof.
  unfold exec_at, cssLangReg. cbn [seqs run chr]. split.
  - intros H.
    destruct s as [|c1 s]; [now elim H|].
    destruct (in_class false [(".", ".")]%char c1) eqn:E1; [|now elim H].
    destruct s as [|c2 s]; [now elim H|].
    destruct (in_class false [("c", "c")]%char c2) eqn:E2; [|now elim H].
    destruct s as [|c3 s]; [now elim H|].
    destruct (in_class false [("s", "s")]%char c3) eqn:E3; [|now elim H].
    destruct s as [|c4 s]; [now elim H|].
    destruct (in_class false [("s", "s")]%char c4) eqn:E4; [|now elim H].
    apply chr_exact in E1, E2, E3, E4. subst.
    exists s. split; [reflexivity|].
    destruct s as [|q s]; [now left|]. right.
    destruct (in_class false [("?", "?")]%char q) eqn:Eq; [|now elim H].
    apply chr_exact in Eq. subst q. now exists s.
  - intros (after & -> & [->|(rest & ->)]); discriminate.
Qed.

Lemma search_spec r : forall s i,
  search false r i s = true
  <-> exists before rest,
        s = (before ++ rest)%string
        /\ exec_at false r (i + String.length before) rest <> None.
Proof.
  induction s as [|c s IH]; intros i; cbn [search].
  - destruct (exec_at false r i EmptyString) eqn:E.
    + split; [intros _|reflexivity].
      exists EmptyString, EmptyString. simpl. rewrite Nat.add_0_r, E.
      split; [reflexivity|discriminate].
    + split; [discriminate|].
      intros (before & rest & Hs & H).
      destruct before; [|discriminate]. simpl in Hs. subst rest.
      simpl in H. rewrite Nat.add_0_r in H. contradiction.
  - destruct (exec_at false r i (String c s)) eqn:E.
    + split; [intros _|reflexivity].
      exists EmptyString, (String c s). simpl. rewrite Nat.add_0_r, E.
      split; [reflexivity|discriminate].
    + rewrite IH. split.
      * intros (before & rest & Hs & H).
        exists (String c before), rest. simpl. rewrite Hs.
        split; [reflexivity|].
        now replace (i + S (String.length before))
          with (S i + String.length before) by lia.
      * intros (before & rest & Hs & H).
        destruct before as [|c' before].
        -- simpl in Hs. subst rest. simpl in H.
           rewrite Nat.add_0_r in H. contradiction.
        -- simpl in Hs. inversion Hs; subst. exists before, rest.
           split; [reflexivity|]. simpl in H.
           now replace (S i + String.length before)
             with (i + S (String.length before)) by lia.
Qed.

(** X5.  [isCSSRequest] holds of a path exactly when [.css], in lower
    case, occurs in it at its end or right before a question mark. *)
Theorem X5_isCSSRequest_iff request :
  isCSSRequest request = true
  <-> exists before after,
        request = (before ++ ".css" ++ after)%string
        /\ (after = EmptyString \/ exists rest, after = String "?" rest).
Proof.
  unfold isCSSRequest, test. rewrite search_spec. split.
  - intros (before & rest & Hs & H). apply exec_css in H.
    destruct H as (after & -> & Ha). now exists before, after.
  - intros (before & after & Hs & Ha). exists before, (".css" ++ after)%string.
    split; [exact Hs|]. apply exec_css. now exists after.
Qed.

End StylesheetTest.

Lemma X5_witness :
  (exists before after,
      "r-main/b.css?v=1" = (before ++ ".css" ++ after)%string
      /\ (after = EmptyString \/ exists rest, after = String "?" rest))
  /\ isCSSRequest "r-main/b.css?v=1" = true.
Proof.
  assert (H : exists before after,
             "r-main/b.css?v=1" = (before ++ ".css" ++ after)%string
             /\ (after = EmptyString \/ exists rest, after = String "?" rest)).
  { exists "r-main/b", "?v=1". split; [reflexivity|]. right. now exists "v=1". }
  split; [exact H|].
  exact (proj2 (X5_isCSSRequest_iff "r-main/b.css?v=1") H).
Defined.

(** ** The request and the handler *)

Section HandlerMore.

Import Async Pipeline Grid Svg.

Variable new_URL : string -> exn + SearchParams.
Variable fetch : string -> exn + string.
Variable Open_buffer : string -> exn + list File.
Variable parse : string -> exn + list ChildNode.
Variable Color : Type.
Variable cs_get : string -> option Color.
Variable cs_to_hex : Color -> string.

Local Abbreviation collect := (collect parse Color cs_get cs_to_hex).
Local Abbreviation main := (main fetch Open_buffer parse Color cs_get cs_to_hex).
Local Abbreviation handler :=
  (handler new_URL fetch Open_buffer parse Color cs_get cs_to_hex).
Local Abbreviation readable := (readable parse).
Local Abbreviation getSearchParams := (getSearchParams new_URL).

Lemma has_get q name :
  has q name = true <-> exists v, get q name = Some v.
Proof.
  unfold has, get. induction q as [|p q IH]; simpl.
  - split; [discriminate|intros [v H]; discriminate].
  - destruct (String.eqb (fst p) name); simpl.
    + split; [intros _; now exists (snd p)|reflexivity].
    + exact IH.
Qed.

(** X6.  [getSearchParams] gives options exactly when each of [repo],
    [owner] and [branch] occurs in the query, and the options then hold
    the first value of each: a parameter that is present with an empty
    value is accepted, and the fallback to the empty string is never
    taken. *)
Theorem X6_options_iff_all_present rawUrl searchParams options :
  new_URL rawUrl = inr searchParams ->
  getSearchParams rawUrl = inr (Some options)
  <-> get searchParams "repo" = Some (repo options)
      /\ get searchParams "owner" = Some (owner options)
      /\ get searchParams "branch" = Some (branch options).
Proof.
  intros U. unfold Pipeline.getSearchParams. rewrite U. split.
  - destruct (has searchParams "repo") eqn:Hr; [|discriminate].
    destruct (has searchParams "owner") eqn:Ho; [|discriminate].
    destruct (has searchParams "branch") eqn:Hb; [|discriminate].
    apply has_get in Hr, Ho, Hb.
    destruct Hr as [r Hr], Ho as [o Ho], Hb as [b Hb].
    rewrite Hr, Ho, Hb. simpl. intros H. inversion H. now simpl.
  - intros (Hr & Ho & Hb).
    assert (Tr : has searchParams "repo" = true)
      by (apply has_get; eauto).
    assert (To : has searchParams "owner" = true)
      by (apply has_get; eauto).
    assert (Tb : has searchParams "branch" = true)
      by (apply has_get; eauto).
    rewrite Tr, To, Tb, Hr, Ho, Hb. simpl. now destruct options.
Qed.

Lemma getSearchParams_cases rawUrl searchParams :
  new_URL rawUrl = inr searchParams ->
  getSearchParams rawUrl = inr None
  \/ exists options, getSearchParams rawUrl = inr (Some options).
Proof.
  intros U. unfold Pipeline.getSearchParams. rewrite U.
  destruct (negb (has searchParams "repo") || negb (has searchParams "owner")
            || negb (has searchParams "branch")); eauto.
Qed.

(** X7.  For a request whose URL parses the handler always returns a
    response, and it is one of three: 400 without body and without any
    awaited operation, when there are no options; 200 with the text of
    [main] as body and the [HEADERS] property, with the trace of [main],
    when [main] returns; 500 without body, with the trace of [main]
    followed by the log of the thrown value, when [main] throws. *)
Theorem X7_three_responses rawUrl searchParams :
  new_URL rawUrl = inr searchParams ->
  (getSearchParams rawUrl = inr None
   /\ run (handler rawUrl) = (inr bad_request, []))
  \/ (exists options svg tr,
        getSearchParams rawUrl = inr (Some options)
        /\ run (main options) = (inr svg, tr)
        /\ run (handler rawUrl)
           = (inr {| statusCode := 200; body := Some svg;
                     headers_field := Some HEADERS |}, tr))
  \/ (exists options e tr,
        getSearchParams rawUrl = inr (Some options)
        /\ run (main options) = (inl e, tr)
        /\ run (handler rawUrl)
           = (inr server_error, tr ++ [ConsoleLog e])).
Proof.
  intros U. destruct (getSearchParams_cases rawUrl searchParams U)
    as [G|[options G]].
  - left. split; [exact G|].
    unfold run, Pipeline.handler, bind, lift. now rewrite G.
  - right. destruct (handler_of_main new_URL fetch Open_buffer parse
                       Color cs_get cs_to_hex rawUrl options G) as [He Hs].
    destruct (run (main options)) as [[e|svg] tr] eqn:M.
    + right. exists options, e, tr. repeat split; auto.
    + left. exists options, svg, tr. repeat split; auto.
Qed.

(** X8.  The URL of the request is parsed outside the [try] block: when
    [new URL] throws, the handler throws the same value, returns no
    response and awaits nothing. *)
Theorem X8_invalid_url_escapes rawUrl e :
  new_URL rawUrl = inl e ->
  run (handler rawUrl) = (inl e, []).
Proof.
  intros U. unfold run, Pipeline.handler, bind, lift, Pipeline.getSearchParams.
  now rewrite U.
Qed.

Lemma collect_trace : forall files hexColors tr,
  snd (collect files hexColors tr) = tr ++ reads (attempted parse files).
Proof.
  induction files as [|f files IH]; intros acc tr.
  - simpl. unfold reads. simpl. now rewrite app_nil_r.
  - cbn [Pipeline.collect attempted]. unfold Pipeline.readable.
    destruct (isCSSRequest (path f)) eqn:C.
    + unfold Pipeline.nodes_of, bind, await, lift.
      destruct (buffer f) as [e|text].
      * unfold reads. simpl. now rewrite C.
      * destruct (parse text) as [e|nodes].
        -- unfold reads. simpl. now rewrite C.
        -- rewrite IH. unfold reads. simpl. rewrite C. simpl.
           now rewrite <- app_assoc.
    + rewrite IH. unfold reads. simpl. now rewrite C.
Qed.

Lemma attempted_prefix : forall files,
  exists rest, files = attempted parse files ++ rest.
Proof.
  induction files as [|f files [rest IH]]; [now exists []|].
  cbn [attempted]. destruct (readable f).
  - exists rest. simpl. now rewrite <- IH.
  - now exists files.
Qed.

Lemma reads_app l1 l2 : reads (l1 ++ l2) = reads l1 ++ reads l2.
Proof. unfold reads. now rewrite filter_app, map_app. Qed.

(** X9.  The operations that [main] awaits, in order: the fetch of the
    archive; then, if the fetch returned, the opening of the archive;
    then, if that returned, one read per stylesheet entry, in the order
    of the archive, up to and including the first entry whose read or
    parse throws.  Entries that are not stylesheets are never read. *)
Theorem X9_awaited_operations options :
  (forall e,
      fetch (archive_url options) = inl e ->
      snd (run (main options)) = [Fetch (archive_url options)])
  /\ (forall bytes e,
        fetch (archive_url options) = inr bytes ->
        Open_buffer bytes = inl e ->
        snd (run (main options)) = [Fetch (archive_url options); OpenBuffer])
  /\ (forall bytes files,
        fetch (archive_url options) = inr bytes ->
        Open_buffer bytes = inr files ->
        snd (run (main options))
        = Fetch (archive_url options) :: OpenBuffer
            :: reads (attempted parse files)
        /\ (exists rest,
              reads files = reads (attempted parse files) ++ rest)
        /\ Forall (fun ev => exists p,
                       ev = FileBuffer p /\ isCSSRequest p = true)
                  (reads (attempted parse files))).
Proof.
  unfold run, Pipeline.main, bind, await, ret. split; [|split].
  - intros e Hf. now rewrite Hf.
  - intros bytes e Hf Ho. now rewrite Hf, Ho.
  - intros bytes files Hf Ho. rewrite Hf, Ho. split; [|split].
    + pose proof (collect_trace files JSSet.empty
                    ([] ++ [Fetch (archive_url options)] ++ [OpenBuffer]))
        as T.
      simpl in T |- *.
      destruct (collect files JSSet.empty
                  [Fetch (archive_url options); OpenBuffer])
        as [[e|colors] tr]; simpl in T |- *; exact T.
    + destruct (attempted_prefix files) as [rest Hr].
      exists (reads rest). now rewrite <- reads_app, <- Hr.
    + apply Forall_forall. intros ev Hin. unfold reads in Hin.
      apply in_map_iff in Hin. destruct Hin as (f & <- & Hf').
      apply filter_In in Hf'. exists (path f). now split.
Qed.

Lemma collect_filter : forall files hexColors tr,
  collect (filter (fun f => isCSSRequest (path f)) files) hexColors tr
  = collect files hexColors tr.
Proof.
  induction files as [|f files IH]; intros acc tr; [reflexivity|].
  cbn [filter Pipeline.collect].
  destruct (isCSSRequest (path f)) eqn:C.
  - cbn [Pipeline.collect]. rewrite C. unfold bind, await, lift.
    destruct (buffer f) as [e|text]; [reflexivity|].
    destruct (parse text) as [e|nodes]; [reflexivity|]. apply IH.
  - apply IH.
Qed.

(** X10.  The entries of the archive that are not stylesheets take no
    part in the loop of [main]: with them removed, the loop gives the
    same set or throws the same value, and awaits the same reads. *)
Theorem X10_other_entries_are_ignored files hexColors tr :
  collect (filter (fun f => isCSSRequest (path f)) files) hexColors tr
  = collect files hexColors tr.
Proof. apply collect_filter. Qed.

Lemma no_stylesheet_readable files :
  forallb (fun f => negb (isCSSRequest (path f))) files = true ->
  forallb readable files = true
  /\ reads files = []
  /\ emitted_archive parse Color cs_get cs_to_hex files = [].
Proof.
  induction files as [|f files IH]; intros H; [now repeat split|].
  simpl in H. apply andb_true_iff in H. destruct H as [Hf H].
  apply negb_true_iff in Hf. destruct (IH H) as (R & Rd & Em).
  unfold reads, Pipeline.emitted_archive in *. simpl.
  unfold Pipeline.readable at 1, Pipeline.emitted_file at 1.
  rewrite Hf. simpl. now repeat split.
Qed.

(** X11.  An archive without stylesheet entries is answered with 200
    and the document without tiles, whatever its entries hold: none of
    them is read. *)
Theorem X11_no_stylesheet_empty_document rawUrl options bytes files :
  getSearchParams rawUrl = inr (Some options) ->
  fetch (archive_url options) = inr bytes ->
  Open_buffer bytes = inr files ->
  forallb (fun f => negb (isCSSRequest (path f))) files = true ->
  run (handler rawUrl)
  = (inr {| statusCode := 200; body := Some empty_document_text;
            headers_field := Some HEADERS |},
     [Fetch (archive_url options); OpenBuffer]).
Proof.
  intros G Hf Ho N. destruct (no_stylesheet_readable files N) as (R & Rd & Em).
  destruct (handler_of_main new_URL fetch Open_buffer parse
              Color cs_get cs_to_hex rawUrl options G) as [_ Hs].
  rewrite (Hs _ _ (main_readable fetch Open_buffer parse Color cs_get
                     cs_to_hex options bytes files Hf Ho R)).
  now rewrite Em, Rd.
Qed.

End HandlerMore.

Section HandlerInstances.

Import Async Pipeline Grid Svg.

Local Abbreviation world_handler :=
  (handler Fixture.new_URL Fixture.fetch Fixture.Open_buffer Fixture.parse
           ColorString.Color ColorString.get ColorString.to_hex).
Local Abbreviation world_main :=
  (main Fixture.fetch Fixture.Open_buffer Fixture.parse
        ColorString.Color ColorString.get ColorString.to_hex).

Lemma X6_witness :
  Fixture.new_URL Fixture.url_all
  = inr [("repo", "r"); ("owner", "o"); ("branch", "main")]
  /\ getSearchParams Fixture.new_URL Fixture.url_all
     = inr (Some Fixture.options_main).
Proof.
  split; [reflexivity|].
  apply (proj2 (X6_options_iff_all_present
                  Fixture.new_URL Fixture.url_all
                  [("repo", "r"); ("owner", "o"); ("branch", "main")]
                  Fixture.options_main eq_refl)).
  repeat split.
Defined.

Lemma X7_witness :
  Fixture.new_URL Fixture.url_broken
  = inr [("repo", "r"); ("owner", "o"); ("branch", "broken")]
  /\ exists response tr,
       run (world_handler Fixture.url_broken) = (inr response, tr).
Proof.
  split; [reflexivity|].
  destruct (X7_three_responses
              Fixture.new_URL Fixture.fetch Fixture.Open_buffer Fixture.parse
              ColorString.Color ColorString.get ColorString.to_hex
              Fixture.url_broken
              [("repo", "r"); ("owner", "o"); ("branch", "broken")] eq_refl)
    as [[_ H]|[(o & svg & tr & _ & _ & H)|(o & e & tr & _ & _ & H)]];
    eauto.
Defined.

Lemma X8_witness :
  Fixture.new_URL "not a url" = inl "TypeError: Invalid URL"
  /\ run (world_handler "not a url") = (inl "TypeError: Invalid URL", []).
Proof.
  split; [reflexivity|].
  exact (X8_invalid_url_escapes
           Fixture.new_URL Fixture.fetch Fixture.Open_buffer Fixture.parse
           ColorString.Color ColorString.get ColorString.to_hex
           "not a url" "TypeError: Invalid URL" eq_refl).
Defined.

Lemma X9_witness :
  Fixture.fetch (archive_url Fixture.options_broken) = inr "zip:broken"
  /\ Fixture.Open_buffer "zip:broken" = inr [Fixture.a_css; Fixture.bad_css]
  /\ snd (run (world_main Fixture.options_broken))
     = [Fetch "https://api.github.com/repos/o/r/zipball/broken"; OpenBuffer;
        FileBuffer "r-main/a.css"; FileBuffer "r-main/bad.css"].
Proof.
  split; [reflexivity|]. split; [reflexivity|].
  exact (proj1 (proj2 (proj2
           (X9_awaited_operations
              Fixture.fetch Fixture.Open_buffer Fixture.parse
              ColorString.Color ColorString.get ColorString.to_hex
              Fixture.options_broken))
           "zip:broken" [Fixture.a_css; Fixture.bad_css] eq_refl eq_refl)).
Defined.

End HandlerInstances.

Section DocsInstance.

Import Async Pipeline Grid Svg.

Lemma X11_witness :
  getSearchParams Fixture.new_URL Fixture.url_all
  = inr (Some Fixture.options_main)
  /\ forallb (fun f => negb (isCSSRequest (path f))) FixtureDocs.files = true
  /\ run (handler Fixture.new_URL FixtureDocs.fetch FixtureDocs.Open_buffer
                  Fixture.parse ColorString.Color ColorString.get
                  ColorString.to_hex Fixture.url_all)
     = (inr {| statusCode := 200; body := Some empty_document_text;
               headers_field := Some HEADERS |},
        [Fetch (archive_url Fixture.options_main); OpenBuffer]).
Proof.
  split; [reflexivity|]. split; [reflexivity|].
  exact (X11_no_stylesheet_empty_document
           Fixture.new_URL FixtureDocs.fetch FixtureDocs.Open_buffer
           Fixture.parse ColorString.Color ColorString.get ColorString.to_hex
           Fixture.url_all Fixture.options_main "zip:docs" FixtureDocs.files
           eq_refl eq_refl eq_refl eq_refl).
Defined.

End DocsInstance.

(** ** The grid for any row width *)

Section GridMore.

Import Grid.

Variable size : nat.
Hypothesis size_pos : 0 < size.

Local Abbreviation rows_of arr :=
  (flat_map (fun i => if Nat.eqb (i mod size) 0
                      then [slice arr i (i + size)] else [])).

Lemma toTwoDimensional_indices (arr : list string) :
  toTwoDimensional arr size = rows_of arr (seq 0 (List.length arr)).
Proof.
  unfold toTwoDimensional, flatMap.
  apply (flat_map_index
           (fun i => if Nat.eqb (i mod size) 0
                     then [slice arr i (i + size)] else [])).
Qed.

Lemma rows_of_none (arr : list string) : forall m s,
  (forall i, s <= i < s + m -> i mod size <> 0) ->
  rows_of arr (seq s m) = [].
Proof.
  induction m as [|m IH]; intros s H; [reflexivity|].
  cbn [seq flat_map].
  destruct (Nat.eqb_spec (s mod size) 0) as [E|_].
  - exfalso. apply (H s); [lia|assumption].
  - cbn [app]. apply IH. intros i Hi. apply H. lia.
Qed.

Lemma rows_of_shift (arr : list string) : forall m s,
  rows_of arr (seq (size + s) m) = rows_of (skipn size arr) (seq s m).
Proof.
  induction m as [|m IH]; intros s; [reflexivity|].
  cbn [seq flat_map].
  replace (S (size + s)) with (size + S s) by lia. rewrite IH. f_equal.
  replace ((size + s) mod size) with (s mod size)
    by (replace (size + s) with (s + 1 * size) by lia;
        now rewrite Nat.Div0.mod_add).
  destruct (Nat.eqb (s mod size) 0); [|reflexivity].
  unfold slice. rewrite skipn_skipn.
  replace (size + s + size - (size + s)) with (s + size - s) by lia.
  now rewrite (Nat.add_comm s size).
Qed.

Lemma toTwoDimensional_step x (arr : list string) :
  toTwoDimensional (x :: arr) size
  = firstn size (x :: arr) :: toTwoDimensional (skipn size (x :: arr)) size.
Proof.
  rewrite !toTwoDimensional_indices. rewrite length_skipn.
  change (List.length (x :: arr)) with (S (List.length arr)).
  cbn [seq flat_map]. rewrite Nat.Div0.mod_0_l. cbn [Nat.eqb app].
  f_equal.
  - unfold slice. now replace (0 + size - 0) with size by lia.
  - destruct (le_lt_dec (size - 1) (List.length arr)) as [L|L].
    + replace (List.length arr)
        with ((size - 1) + (List.length arr - (size - 1))) at 1 by lia.
      rewrite seq_app, flat_map_app.
      rewrite rows_of_none
        by (intros i Hi; rewrite Nat.mod_small by lia; lia).
      replace (1 + (size - 1)) with (size + 0) by lia.
      rewrite rows_of_shift.
      replace (S (List.length arr) - size)
        with (List.length arr - (size - 1)) by lia.
      reflexivity.
    + rewrite rows_of_none
        by (intros i Hi; rewrite Nat.mod_small by lia; lia).
      replace (S (List.length arr) - size) with 0 by lia. reflexivity.
Qed.

Lemma toTwoDimensional_any_size : forall n (arr : list string),
  List.length arr <= n ->
  List.concat (toTwoDimensional arr size) = arr
  /\ Forall (fun row => 1 <= List.length row <= size)
            (toTwoDimensional arr size)
  /\ (forall i, S i < List.length (toTwoDimensional arr size) ->
        List.length (nth i (toTwoDimensional arr size) []) = size)
  /\ List.length arr <= List.length (toTwoDimensional arr size) * size
  /\ List.length (toTwoDimensional arr size) * size
     < List.length arr + size.
Proof.
  induction n as [|n IH]; intros arr Hn.
  - destruct arr; [|simpl in Hn; lia].
    unfold toTwoDimensional, flatMap. simpl.
    repeat split; try constructor; intros; lia.
  - destruct arr as [|x arr].
    + unfold toTwoDimensional, flatMap. simpl.
      repeat split; try constructor; intros; lia.
    + rewrite toTwoDimensional_step.
      assert (Hl : List.length (skipn size (x :: arr))
                   = List.length (x :: arr) - size)
        by apply length_skipn.
      assert (Hf : List.length (firstn size (x :: arr))
                   = Nat.min size (List.length (x :: arr)))
        by apply length_firstn.
      cbn [List.length] in Hn, Hl, Hf.
      destruct (IH (skipn size (x :: arr)) ltac:(lia))
        as (R1 & R2 & R3 & R4 & R5).
      set (rest := toTwoDimensional (skipn size (x :: arr)) size) in *.
      cbn [List.length].
      split; [|split; [|split; [|split]]].
      * cbn [List.concat]. rewrite R1. apply firstn_skipn.
      * constructor; [rewrite Hf; lia|exact R2].
      * intros [|i] Hi; cbn [nth].
        -- rewrite Hf.
           assert (0 < List.length rest) by (cbn [List.length] in Hi; lia).
           destruct (le_lt_dec size (S (List.length arr))) as [L|L]; [lia|].
           replace (S (List.length arr) - size) with 0 in * by lia.
           destruct (skipn size (x :: arr)); [|discriminate].
           unfold rest, toTwoDimensional, flatMap in H. simpl in H. lia.
        -- apply R3. cbn [List.length] in Hi. lia.
      * cbn [List.length]. rewrite Hl in R4. simpl. lia.
      * cbn [List.length]. rewrite Hl in R5. simpl.
        destruct (le_lt_dec size (S (List.length arr))) as [L|L]; [lia|].
        replace (S (List.length arr) - size) with 0 in * by lia.
        destruct (skipn size (x :: arr)); [|discriminate].
        unfold rest, toTwoDimensional, flatMap. simpl. lia.
Qed.

(** X12.  For every positive row width the rows of [toTwoDimensional],
    one after the other, are the sequence itself; no row is empty or
    longer than the width; every row but the last has the width; and
    the number of rows is the quotient of the length by the width,
    rounded up. *)
Theorem X12_rows_for_any_width (arr : list string) :
  List.concat (toTwoDimensional arr size) = arr
  /\ Forall (fun row => 1 <= List.length row <= size)
            (toTwoDimensional arr size)
  /\ (forall i, S i < List.length (toTwoDimensional arr size) ->
        List.length (nth i (toTwoDimensional arr size) []) = size)
  /\ List.length arr <= List.length (toTwoDimensional arr size) * size
  /\ List.length (toTwoDimensional arr size) * size
     < List.length arr + size.
Proof. exact (toTwoDimensional_any_size (List.length arr) arr (le_n _)). Qed.

End GridMore.

Lemma X12_witness :
  0 < 5
  /\ List.concat (Grid.toTwoDimensional Fixture.twelve 5) = Fixture.twelve
  /\ List.length (Grid.toTwoDimensional Fixture.twelve 5) * 5 < 12 + 5.
Proof.
  assert (P : 0 < 5) by lia.
  pose proof (X12_rows_for_any_width 5 P Fixture.twelve) as H.
  split; [exact P|].
  split; [exact (proj1 H)|exact (proj2 (proj2 (proj2 (proj2 H))))].
Defined.

(** ** The values that the color pattern accepts *)

Section PatternAccepts.

Import JSString ColorString.

Lemma run_complete icase r i s j t :
  matches icase r i s j t ->
  forall k, k j t <> None -> run icase r i s k <> None.
Proof.
  induction 1 as [cl c s i Hc|s|i|r1 r2 i s j t j' t' _ IH1 _ IH2
                 |r1 r2 i s j t _ IH|r1 r2 i s j t _ IH
                 |r i s j t _ IH|r i s|cl i s|cl c s i j t Hc _ IH];
    intros k Hk; cbn [run].
  - now rewrite Hc.
  - exact Hk.
  - exact Hk.
  - apply IH1. now apply IH2.
  - specialize (IH k Hk). destruct (run icase r1 i s k); [discriminate|].
    contradiction.
  - destruct (run icase r1 i s k); [discriminate|]. now apply IH.
  - specialize (IH k Hk). destruct (run icase r i s k); [discriminate|].
    contradiction.
  - destruct (run icase r i s k); [discriminate|]. exact Hk.
  - destruct s as [|c s]; cbn [star]; [exact Hk|].
    destruct (in_class icase cl c); [|exact Hk].
    destruct (star (in_class icase cl) (S i) s k); [discriminate|exact Hk].
  - cbn [star]. rewrite Hc. specialize (IH k Hk). cbn [run] in IH.
    destruct (star (in_class icase cl) (S i) s k); [discriminate|].
    contradiction.
Qed.

Lemma matches_star_all icase cl rest : forall ds i,
  all_chars (in_class icase cl) ds = true ->
  matches icase (Star cl) i (ds ++ rest) (i + String.length ds) rest.
Proof.
  induction ds as [|c ds IH]; intros i H; simpl in *.
  - rewrite Nat.add_0_r. constructor.
  - apply andb_true_iff in H. destruct H as [Hc H].
    apply m_star_more; [exact Hc|].
    replace (i + S (String.length ds)) with (S i + String.length ds) by lia.
    now apply IH.
Qed.

Lemma matches_plus_digits ds rest i :
  ds <> EmptyString -> digits_only ds = true ->
  matches true (plus digit) i (ds ++ rest) (i + String.length ds) rest.
Proof.
  intros N D. destruct ds as [|c ds]; [contradiction|].
  unfold digits_only in D. simpl in D.
  apply andb_true_iff in D. destruct D as [Dc D].
  unfold plus.
  eapply m_seq; [apply m_chars; exact Dc|].
  simpl String.length.
  replace (i + S (String.length ds)) with (S i + String.length ds) by lia.
  now apply matches_star_all.
Qed.

(** A non-empty string of digits is a number of the pattern. *)
Lemma matches_number_digits ds rest i :
  ds <> EmptyString -> digits_only ds = true ->
  matches true number i (ds ++ rest) (i + String.length ds) rest.
Proof.
  intros N D. unfold number. cbn [seqs].
  eapply m_seq; [apply m_opt_none|].
  eapply m_seq; [apply m_star_none|].
  eapply m_seq; [apply m_opt_none|].
  now apply matches_plus_digits.
Qed.

(** So is a string of digits, a point and a non-empty string of
    digits. *)
Lemma matches_number_fraction int frac rest i :
  frac <> EmptyString -> digits_only int = true -> digits_only frac = true ->
  matches true number i (int ++ String "." (frac ++ rest))
          (i + String.length int + 1 + String.length frac) rest.
Proof.
  intros N Di Df. unfold number. cbn [seqs].
  eapply m_seq; [apply m_opt_none|].
  eapply m_seq; [apply matches_star_all; exact Di|].
  eapply m_seq; [apply m_opt_some, m_chars; reflexivity|].
  replace (i + String.length int + 1 + String.length frac)
    with (S (i + String.length int) + String.length frac) by lia.
  now apply matches_plus_digits.
Qed.

Lemma matches_comma sp rest i :
  spaces_only sp = true ->
  matches true comma i (String "," (sp ++ rest))
          (S i + String.length sp) rest.
Proof.
  intros S. unfold comma. cbn [seqs].
  eapply m_seq; [apply m_star_none|].
  eapply m_seq; [apply m_chars; reflexivity|].
  now apply matches_star_all.
Qed.

Lemma exec_whole_value value :
  exec_at true colorReg 0 value <> None ->
  match_colors value = Some [value].
Proof.
  intros H. unfold match_colors, match_g.
  destruct value as [|c s].
  - now rewrite colorReg_not_empty in H.
  - cbn [scan]. destruct (exec_at true colorReg 0 (String c s)) as [e|] eqn:E;
      [|contradiction].
    apply (exec_anchored true colorReg 0 (String c s) e eq_refl) in E.
    subst e. cbn [Nat.add Nat.sub String.length].
    rewrite Nat.sub_0_r, (scan_skip_all true colorReg colorReg_not_empty).
    change (S (String.length s)) with (String.length (String c s)).
    now rewrite prefix_all.
Qed.

Lemma matches_whole_value value j :
  matches true rgbReg 0 value j EmptyString ->
  match_colors value = Some [value].
Proof.
  intros M. apply exec_whole_value. unfold exec_at, colorReg.
  apply (run_complete true (Alt hexReg rgbReg) 0 value j EmptyString).
  - now apply m_alt_r.
  - discriminate.
Qed.

Ltac step_seq tac := eapply m_seq; [tac|].

(** X13.  A value that is an [rgb(...)] call with three channels written
    in digits is matched in whole, with any number of spaces after each
    comma; so is an [rgba(...)] call whose fourth channel is written in
    digits, with or without a point and digits after it. *)
Theorem X13_rgb_calls_are_matched r g b sp1 sp2 :
  r <> EmptyString -> g <> EmptyString -> b <> EmptyString ->
  digits_only r = true -> digits_only g = true -> digits_only b = true ->
  spaces_only sp1 = true -> spaces_only sp2 = true ->
  match_colors ("rgb(" ++ r ++ "," ++ sp1 ++ g ++ "," ++ sp2 ++ b ++ ")")
  = Some ["rgb(" ++ r ++ "," ++ sp1 ++ g ++ "," ++ sp2 ++ b ++ ")"]%string
  /\ (forall sp3 a,
        a <> EmptyString -> digits_only a = true -> spaces_only sp3 = true ->
        match_colors ("rgba(" ++ r ++ "," ++ sp1 ++ g ++ "," ++ sp2 ++ b
                      ++ "," ++ sp3 ++ a ++ ")")
        = Some ["rgba(" ++ r ++ "," ++ sp1 ++ g ++ "," ++ sp2 ++ b
                ++ "," ++ sp3 ++ a ++ ")"]%string)
  /\ (forall sp3 int frac,
        frac <> EmptyString -> digits_only int = true ->
        digits_only frac = true -> spaces_only sp3 = true ->
        match_colors ("rgba(" ++ r ++ "," ++ sp1 ++ g ++ "," ++ sp2 ++ b
                      ++ "," ++ sp3 ++ int ++ "." ++ frac ++ ")")
        = Some ["rgba(" ++ r ++ "," ++ sp1 ++ g ++ "," ++ sp2 ++ b
                ++ "," ++ sp3 ++ int ++ "." ++ frac ++ ")"]%string).
Proof.
  intros Nr Ng Nb Dr Dg Db S1 S2.
  split; [|split].
  - eapply matches_whole_value. unfold rgbReg. cbn [seqs append].
    step_seq ltac:(apply m_chars; reflexivity).
    step_seq ltac:(apply m_chars; reflexivity).
    step_seq ltac:(apply m_chars; reflexivity).
    step_seq ltac:(apply m_opt_none).
    step_seq ltac:(apply m_chars; reflexivity).
    step_seq ltac:(apply m_star_none).
    step_seq ltac:(apply matches_number_digits; assumption).
    step_seq ltac:(apply matches_comma; assumption).
    step_seq ltac:(apply matches_number_digits; assumption).
    step_seq ltac:(apply matches_comma; assumption).
    step_seq ltac:(apply matches_number_digits; assumption).
    step_seq ltac:(apply m_opt_none).
    step_seq ltac:(apply m_chars; reflexivity).
    apply m_eol.
  - intros sp3 a Na Da S3.
    eapply matches_whole_value. unfold rgbReg. cbn [seqs append].
    step_seq ltac:(apply m_chars; reflexivity).
    step_seq ltac:(apply m_chars; reflexivity).
    step_seq ltac:(apply m_chars; reflexivity).
    step_seq ltac:(apply m_opt_some, m_chars; reflexivity).
    step_seq ltac:(apply m_chars; reflexivity).
    step_seq ltac:(apply m_star_none).
    step_seq ltac:(apply matches_number_digits; assumption).
    step_seq ltac:(apply matches_comma; assumption).
    step_seq ltac:(apply matches_number_digits; assumption).
    step_seq ltac:(apply matches_comma; assumption).
    step_seq ltac:(apply matches_number_digits; assumption).
    step_seq ltac:(apply m_opt_some;
                   step_seq ltac:(apply matches_comma; assumption);
                   step_seq ltac:(apply matches_number_digits; assumption);
                   apply m_star_none).
    step_seq ltac:(apply m_chars; reflexivity).
    apply m_eol.
  - intros sp3 int frac Nf Di Df S3.
    eapply matches_whole_value. unfold rgbReg. cbn [seqs append].
    step_seq ltac:(apply m_chars; reflexivity).
    step_seq ltac:(apply m_chars; reflexivity).
    step_seq ltac:(apply m_chars; reflexivity).
    step_seq ltac:(apply m_opt_some, m_chars; reflexivity).
    step_seq ltac:(apply m_chars; reflexivity).
    step_seq ltac:(apply m_star_none).
    step_seq ltac:(apply matches_number_digits; assumption).
    step_seq ltac:(apply matches_comma; assumption).
    step_seq ltac:(apply matches_number_digits; assumption).
    step_seq ltac:(apply matches_comma; assumption).
    step_seq ltac:(apply matches_number_digits; assumption).
    step_seq ltac:(apply m_opt_some;
                   step_seq ltac:(apply matches_comma; assumption);
                   step_seq ltac:(apply matches_number_fraction; assumption);
                   apply m_star_none).
    step_seq ltac:(apply m_chars; reflexivity).
    apply m_eol.
Qed.

End PatternAccepts.

Lemma X13_witness :
  digits_only "255" = true /\ spaces_only " " = true
  /\ match_colors "rgba(255, 0, 0, 0.5)" = Some ["rgba(255, 0, 0, 0.5)"].
Proof.
  split; [reflexivity|]. split; [reflexivity|].
  refine (proj2 (proj2 (X13_rgb_calls_are_matched "255" "0" "0" " " " "
                          _ _ _ eq_refl eq_refl eq_refl eq_refl eq_refl))
            " " "0" "5" _ eq_refl eq_refl eq_refl); discriminate.
Defined.

(** ** Declarations that give nothing *)

Section WalkerSkips.

Variable Color : Type.
Variable cs_get : string -> option Color.
Variable cs_to_hex : Color -> string.

Local Abbreviation recursion := (recursion Color cs_get cs_to_hex).

(** X14.  A declaration whose value has no match, or whose token
    [cs.get] does not resolve, is passed over: the set is the one of the
    nodes without that declaration. *)
Theorem X14_unresolved_token_is_skipped value :
  match_colors value = None
  \/ (exists matched,
        match_colors value = Some [matched] /\ cs_get matched = None) ->
  forall before prop after,
    recursion (before ++ Declaration prop value :: after)
    = recursion (before ++ after).
Proof.
  intros H before prop after. rewrite !recursion_spec. f_equal.
  unfold Walker.emitted_all. rewrite !flat_map_app. f_equal.
  cbn [flat_map Walker.emitted]. unfold Walker.value_colors.
  destruct H as [H|(matched & H & G)]; rewrite H; [reflexivity|].
  simpl. now rewrite G.
Qed.

End WalkerSkips.

Lemma X14_witness :
  (exists matched,
      match_colors "rgb(300,0,0)" = Some [matched]
      /\ ColorString.get matched = None)
  /\ recursion ColorString.Color ColorString.get ColorString.to_hex
       ([Declaration "color" "#fff"]
        ++ Declaration "background" "rgb(300,0,0)"
        :: [Declaration "fill" "#000"])
     = ["#ffffff"; "#000000"].
Proof.
  assert (H : exists matched,
             match_colors "rgb(300,0,0)" = Some [matched]
             /\ ColorString.get matched = None)
    by (exists "rgb(300,0,0)"; split; reflexivity).
  split; [exact H|].
  rewrite (X14_unresolved_token_is_skipped
             ColorString.Color ColorString.get ColorString.to_hex
             "rgb(300,0,0)" (or_intror H)).
  reflexivity.
Defined.
